(** * micro-http-router: a shallow embedding of [src/router.js]

    The file models the [Router] class: the registration surface
    ([route], [get], [post], ...) and the dispatcher ([handle]).

    Conventions of the embedding.
    - JavaScript values are the inductive [JsValue]; truthiness is [truthy].
    - Route objects are shared, mutable JavaScript objects: the radix tree
      keeps a reference to the object that [route] goes on mutating.  They
      live in a store ([heap]) and are named by their index ([RouteRef]).
    - [route] runs in a state-and-exception monad over the router; a raised
      assertion keeps the state reached when it was raised.
    - [handle] is an [async] function: its outcome is the settlement of the
      promise it returns, together with the trace of what it did on the way
      (callables invoked, promises left un-awaited, responses sent).
    - The [radix-router] package and the JavaScript engine are not part of
      the repository; [router.js] is modelled over their interfaces
      ([RadixRouter.API], [Engine]). *)

From Stdlib Require Import ZArith Ascii.
From stdpp Require Import base option list gmap strings.

(** ** Error objects and completions *)

(** An [Error] object, by the properties [router.js] and [micro] read. *)
Record ErrorObj := {
  err_name : string;
  err_message : string;
  err_stack : string;
  err_statusCode : option Z
}.

(** What the engine supplies: the [URL] parser and the stack text of the
    errors created while the router runs. *)
Record URL := {
  pathname : string;
  searchParams : list (string * string)
}.

Class Engine := {
  (** [new URL(input, 'http://localhost/')]; [None] when it throws. *)
  URL_new : string -> option URL;
  (** the [stack] property of an error created with this name and message *)
  captureStackTrace : string -> string -> string
}.

Definition TypeError `{Engine} (message : string) : ErrorObj :=
  {| err_name := "TypeError";
     err_message := message;
     err_stack := captureStackTrace "TypeError" message;
     err_statusCode := None |}.

(** [createError(code, message)] of [micro]: an [Error] with a status code. *)
Definition createError `{Engine} (code : Z) (message : string) : ErrorObj :=
  {| err_name := "Error";
     err_message := message;
     err_stack := captureStackTrace "Error" message;
     err_statusCode := Some code |}.

(** The settlement of a promise: fulfilled with a value, or rejected with
    one (any value can be the reason, [undefined] for [Promise.reject()]). *)
Inductive Settled (A : Type) :=
| Fulfills (v : A)
| Rejects (e : A).
Arguments Fulfills {A} & v.
Arguments Rejects {A} & e.

(** What a call does: raise synchronously (any value can be thrown),
    return a plain value, or return a promise (as every [async] function
    does) that settles later. *)
Inductive Completion (A : Type) :=
| Throws (e : A)
| Returns (v : A)
| ReturnsPromise (p : Settled A).
Arguments Throws {A} & e.
Arguments Returns {A} & v.
Arguments ReturnsPromise {A} & p.

(** ** Requests and values *)

Abbreviation Params := (list (string * string)).

(** [http.IncomingMessage], by the properties the router reads and writes.
    [method] is [None] when the property is [undefined]. *)
Module Req.
Record t := {
  method : option string;
  url : string;
  params : option Params;
  searchParams : option (list (string * string))
}.
End Req.

#[warnings="-register-all"]
Inductive JsValue :=
| VUndefined
| VNull
| VBool (b : bool)
| VNum (n : Z)
| VStr (s : string)
| VFun (name : string) (body : Req.t -> Completion JsValue)
| VError (e : ErrorObj).

(** An [Error] object is a value; where one is written for a value, that
    value is meant. *)
Coercion VError : ErrorObj >-> JsValue.

(** ToBoolean. *)
Definition truthy (v : JsValue) : bool :=
  match v with
  | VUndefined | VNull => false
  | VBool b => b
  | VNum n => negb (n =? 0)%Z
  | VStr s => negb (String.eqb s "")
  | VFun _ _ => true
  | VError _ => true
  end.

(** [typeof v === 'function'] *)
Definition is_function (v : JsValue) : bool :=
  match v with
  | VFun _ _ => true
  | _ => false
  end.

(** A string-or-undefined property used as a condition. *)
Definition truthy_string (s : option string) : bool :=
  match s with
  | Some s => negb (String.eqb s "")
  | None => false
  end.

(** [String.prototype.toUpperCase], on the ASCII letters. *)
Definition upper_ascii (c : ascii) : ascii :=
  let n := nat_of_ascii c in
  if (97 <=? n)%nat && (n <=? 122)%nat then ascii_of_nat (n - 32) else c.

Fixpoint toUpperCase (s : string) : string :=
  match s with
  | EmptyString => EmptyString
  | String c s' => String (upper_ascii c) (toUpperCase s')
  end.

(** ** Route objects *)

(** The object [{ handler, before }] stored per method. *)
Record Method := {
  handler : JsValue;
  before : JsValue
}.

(** The object [{ path, methods: new Map() }] created by [route]. *)
Record Route := {
  path : string;
  methods : gmap string Method
}.

Abbreviation RouteRef := nat.

(** The object behind a reference. *)
Definition deref (h : list Route) (ref : RouteRef) : Route :=
  default {| path := ""; methods := ∅ |} (h !! ref).

(** ** The radix-router package, as [router.js] uses it *)

Module RadixRouter.
(** [lookup] answers [null] ([None]) or the route object stored for the
    path, whose [params] property holds the parameters of the match
    ([None] when the property is [undefined]).  [insert] receives the route
    object and reads its [path]. *)
Class API (T : Type) := {
  new : JsValue -> T;
  lookup : T -> string -> option (RouteRef * option Params);
  insert : T -> RouteRef -> string -> T
}.
End RadixRouter.

(** ** Raising and state *)

(** The error raised by [assert(value, message)] of Node's [assert] module;
    [message] is [None] when the call gives none. *)
Inductive AssertionError :=
| MkAssertionError (message : option string).

(** A computation over a state [S] that returns or raises; either way it
    leaves the state it reached. *)
Inductive Result (S A : Type) :=
| Ok (s : S) (a : A)
| Raised (s : S) (e : AssertionError).
Arguments Ok {S A} s a.
Arguments Raised {S A} s e.

Definition Action (S A : Type) : Type := S -> Result S A.

Definition state_of {S A} (r : Result S A) : S :=
  match r with
  | Ok s _ => s
  | Raised s _ => s
  end.

Definition raised {S A} (r : Result S A) : option AssertionError :=
  match r with
  | Ok _ _ => None
  | Raised _ e => Some e
  end.

#[global] Instance Action_ret {S} : MRet (Action S) :=
  fun A a s => Ok s a.

#[global] Instance Action_bind {S} : MBind (Action S) :=
  fun A B k c s =>
    match c s with
    | Ok s' a => k a s'
    | Raised s' e => Raised s' e
    end.

Definition raise {S A} (e : AssertionError) : Action S A :=
  fun s => Raised s e.

Definition gets {S A} (f : S -> A) : Action S A :=
  fun s => Ok s (f s).

Definition modify {S} (f : S -> S) : Action S unit :=
  fun s => Ok (f s) tt.

(** [assert(value, message)] *)
Definition assert {S} (value : bool) (message : option string) : Action S unit :=
  if value then mret tt else raise (MkAssertionError message).

(** [assert(x, message)] on a possibly undefined object; gives the object. *)
Definition assert_object {S A} (x : option A) (message : option string)
  : Action S A :=
  match x with
  | Some a => mret a
  | None => raise (MkAssertionError message)
  end.

(** [assert(s, message)] on a string-or-undefined property; gives the
    string, which is then known to be non-empty. *)
Definition assert_string {S} (s : option string) (message : option string)
  : Action S string :=
  match s with
  | Some s => if truthy_string (Some s) then mret s
              else raise (MkAssertionError message)
  | None => raise (MkAssertionError message)
  end.

(** ** The arguments of a registration *)

Module Options.
(** The [options] object of [route]. [path] and [method] are strings or
    missing; [handler] and [before] are any value ([VUndefined] when the
    property is missing). *)
Record t := {
  path : option string;
  method : option string;
  handler : JsValue;
  before : JsValue
}.
End Options.

Module Config.
(** The [options] object of the constructor. *)
Record t := {
  strict : JsValue;
  debug : JsValue
}.
End Config.

(** [routeOptionsHelper(path, method, fn1, fn2)] *)
Definition routeOptionsHelper {S} (path : option string) (method : string)
    (fn1 fn2 : JsValue) : Action S Options.t :=
  assert (truthy fn1)
    (Some "You must provide a valid function as the second parameter.");;
  if truthy fn2 then
    mret {| Options.path := path; Options.method := Some method;
            Options.before := fn1; Options.handler := fn2 |}
  else
    mret {| Options.path := path; Options.method := Some method;
            Options.before := VUndefined; Options.handler := fn1 |}.

(** ** What [handle] does *)

Inductive Event :=
| EvCall (callee : JsValue) (req : Req.t)
    (** a function is invoked with the request *)
| EvFloating (p : Settled JsValue)
    (** a call returned a promise that is dropped without [await] *)
| EvSend (statusCode : Z) (data : option string).
    (** [send(res, statusCode, data)] of [micro]; [None] is [null] *)

(** The body [micro]'s [send] writes: a [null] payload ends the response
    with no body. *)
Definition body_of (data : option string) : string := default "" data.

Record Outcome := {
  trace : list Event;
  settled : Settled JsValue;  (** of the promise [handle] returns *)
  request : Req.t             (** [req] as [handle] leaves it *)
}.

(** [callee(req, res)], where [callee] was read from property [what]. *)
Definition invoke `{Engine} (what : string) (callee : JsValue) (req : Req.t)
  : list Event * Completion JsValue :=
  match callee with
  | VFun _ body => ([EvCall callee req], body req)
  | _ => ([], Throws (VError (TypeError (what +:+ " is not a function"))))
  end.

Definition LF : string := String (ascii_of_nat 10) EmptyString.

(** ** The [Router] class *)

Module Router.

(** An instance: the radix router, the [debug] option, and the route
    objects created so far. *)
Record t (T : Type) := {
  radixRouter : T;
  debug : JsValue;
  heap : list Route
}.
Arguments radixRouter {T} _.
Arguments debug {T} _.
Arguments heap {T} _.

Section Class.
Context `{Engine} {T : Type} `{RadixRouter.API T}.

(** [constructor(options)]; [options && options.x] is [undefined] when no
    options are given. *)
Definition constructor (options : option Config.t) : t T :=
  {| radixRouter :=
       RadixRouter.new (from_option Config.strict VUndefined options);
     debug := from_option Config.debug VUndefined options;
     heap := [] |}.

(** [{ path, methods: new Map() }]: a new object; gives its reference. *)
Definition new_route (path : string) : Action (t T) RouteRef :=
  fun r =>
    Ok {| radixRouter := radixRouter r;
          debug := debug r;
          heap := heap r ++ [ {| path := path; methods := ∅ |} ] |}
       (length (heap r)).

(** [this.radixRouter.insert(route)] *)
Definition radix_insert (ref : RouteRef) (path : string) : Action (t T) unit :=
  modify (fun r =>
    {| radixRouter := RadixRouter.insert (radixRouter r) ref path;
       debug := debug r;
       heap := heap r |}).

(** A write to the route object behind [ref]. *)
Definition update_route (ref : RouteRef) (f : Route -> Route)
  : Action (t T) unit :=
  modify (fun r =>
    {| radixRouter := radixRouter r;
       debug := debug r;
       heap := <[ref := f (deref (heap r) ref)]> (heap r) |}).

(** [route.methods.set(key, method)] *)
Definition methods_set (ref : RouteRef) (key : string) (method : Method)
  : Action (t T) unit :=
  update_route ref (fun route =>
    {| path := path route; methods := <[key := method]> (methods route) |}).

(** [method.before = value], for the [method] object held under [key]. *)
Definition set_before (ref : RouteRef) (key : string) (value : JsValue)
  : Action (t T) unit :=
  update_route ref (fun route =>
    {| path := path route;
       methods := alter (fun method =>
                    {| handler := handler method; before := value |})
                    key (methods route) |}).

(** [route(options)]; a call that returns gives back the router itself,
    which is the state of the action. *)
Definition route (options : option Options.t) : Action (t T) unit :=
  options ← assert_object options
    (Some "You must provide a valid route options object.");
  path ← assert_string (Options.path options)
    (Some "You must provide a valid path.");
  method ← assert_string (Options.method options)
    (Some "You must provide a valid route handler function.");
  assert (truthy (Options.handler options))
    (Some "You must provide a valid route handler function.");;
  found ← gets (fun r => RadixRouter.lookup (radixRouter r) path);
  route ← match found with
          | Some (route, _) => mret route
          | None =>
              route ← new_route path;
              radix_insert route path;;
              mret route
          end;
  methods_set route (toUpperCase method)
    {| handler := Options.handler options; before := VUndefined |};;
  if truthy (Options.before options) then
    assert (is_function (Options.before options)) None;;
    set_before route (toUpperCase method) (Options.before options)
  else
    mret tt.

(** The body of the [try] block of [handle], after [req] is populated: it
    completes with the handler's awaited value ([inr]) or with what was
    raised ([inl]). *)
Definition try_block (methodObj : option Method) (req : Req.t)
  : list Event * (JsValue + JsValue) :=
  match methodObj with
  | None =>
      (* [methodObj.before] on [undefined] *)
      ([], inl (VError (TypeError
                  "Cannot read properties of undefined (reading 'before')")))
  | Some methodObj =>
      (* [if (methodObj.before) methodObj.before(req, res);] *)
      let hook : list Event * option JsValue :=
        if truthy (before methodObj) then
          match invoke "methodObj.before" (before methodObj) req with
          | (evs, Throws e) => (evs, Some e)
          | (evs, Returns _) => (evs, None)
          | (evs, ReturnsPromise p) => (evs ++ [EvFloating p], None)
          end
        else ([], None) in
      match hook with
      | (evs, Some e) => (evs, inl e)
      | (evs, None) =>
          (* [return await methodObj.handler(req, res);] *)
          match invoke "methodObj.handler" (handler methodObj) req with
          | (evs', Throws e) => (evs ++ evs', inl e)
          | (evs', Returns v) => (evs ++ evs', inr v)
          | (evs', ReturnsPromise (Fulfills v)) => (evs ++ evs', inr v)
          | (evs', ReturnsPromise (Rejects e)) => (evs ++ evs', inl e)
          end
      end
  end.

(** The template literal of the [catch] block, which reads [e.name],
    [e.message] and [e.stack] off the caught value: reading a property of
    [null] or [undefined] raises a [TypeError]; a primitive has none of the
    three properties, a function has only its [name]. *)
Definition template (e : JsValue) : ErrorObj + string :=
  match e with
  | VUndefined =>
      inl (TypeError "Cannot read properties of undefined (reading 'name')")
  | VNull =>
      inl (TypeError "Cannot read properties of null (reading 'name')")
  | VError e =>
      inr (err_name e +:+ ": " +:+ err_message e +:+ LF +:+ err_stack e)
  | VFun name _ =>
      inr (name +:+ ": " +:+ "undefined" +:+ LF +:+ "undefined")
  | VBool _ | VNum _ | VStr _ =>
      inr ("undefined" +:+ ": " +:+ "undefined" +:+ LF +:+ "undefined")
  end.

(** The [catch] block of [handle]: what it sends, and how the promise of
    [handle] settles.  With [debug] truthy the template literal is
    evaluated first, and what it raises leaves [handle] before [send]. *)
Definition catch_block (r : t T) (e : JsValue)
  : list Event * Settled JsValue :=
  if truthy (debug r) then
    match template e with
    | inr data => ([EvSend 500 (Some data)], Fulfills VUndefined)
    | inl raised => ([], Rejects (VError raised))
    end
  else ([EvSend 500 None], Fulfills VUndefined).

(** [handle(req, res)] *)
Definition handle (r : t T) (req : Req.t) : Outcome :=
  match URL_new (Req.url req) with
  | None =>
      {| trace := []; settled := Rejects (TypeError "Invalid URL");
         request := req |}
  | Some reqURL =>
      match RadixRouter.lookup (radixRouter r) (pathname reqURL),
            Req.method req with
      | Some (route, route_params), Some method =>
          let methodObj := methods (deref (heap r) route) !! method in
          (* [if (route.params) req.params = route.params;] *)
          let params :=
            match route_params with
            | Some ps => Some ps
            | None => Req.params req
            end in
          (* [req.searchParams = reqURL.searchParams;] *)
          let req' :=
            {| Req.method := Req.method req;
               Req.url := Req.url req;
               Req.params := params;
               Req.searchParams := Some (searchParams reqURL) |} in
          match try_block methodObj req' with
          | (evs, inr v) =>
              {| trace := evs; settled := Fulfills v; request := req' |}
          | (evs, inl e) =>
              {| trace := evs ++ (catch_block r e).1;
                 settled := (catch_block r e).2;
                 request := req' |}
          end
      | _, _ =>
          {| trace := [];
             settled := Rejects (createError 404 "Route not found");
             request := req |}
      end
  end.

(** The verbs. *)
Definition get (path : option string) (fn1 fn2 : JsValue) : Action (t T) unit :=
  options ← routeOptionsHelper path "GET" fn1 fn2; route (Some options).

Definition post (path : option string) (fn1 fn2 : JsValue) : Action (t T) unit :=
  options ← routeOptionsHelper path "POST" fn1 fn2; route (Some options).

Definition put (path : option string) (fn1 fn2 : JsValue) : Action (t T) unit :=
  options ← routeOptionsHelper path "PUT" fn1 fn2; route (Some options).

Definition delete (path : option string) (fn1 fn2 : JsValue) : Action (t T) unit :=
  options ← routeOptionsHelper path "DELETE" fn1 fn2; route (Some options).

Definition options (path : option string) (fn1 fn2 : JsValue) : Action (t T) unit :=
  options ← routeOptionsHelper path "OPTIONS" fn1 fn2; route (Some options).

Definition trace (path : option string) (fn1 fn2 : JsValue) : Action (t T) unit :=
  options ← routeOptionsHelper path "TRACE" fn1 fn2; route (Some options).

Definition patch (path : option string) (fn1 fn2 : JsValue) : Action (t T) unit :=
  options ← routeOptionsHelper path "PATCH" fn1 fn2; route (Some options).

End Class.
End Router.

(** ** The path tree *)

Module PathTree.

(** Modelled from the spec: the kinds of pattern segment (the package
    [radix-router] that implements the tree is a dependency whose code is
    not among the sources).  A segment that begins with the parameter
    marker [:] names a capture, the segment [*] is the wildcard, any other
    segment is a literal. *)
Inductive Segment :=
| Static (literal : string)
| Param (name : string)
| Wildcard.

Definition kind (segment : string) : Segment :=
  match segment with
  | String c name =>
      if Ascii.eqb c ":" then Param name
      else if String.eqb segment "*" then Wildcard
      else Static segment
  | EmptyString => Static segment
  end.

(** Modelled from the spec: a [TreeNode] (missing: [radix-router]) owns its
    static children keyed by literal, at most one parameter child with the
    parameter's name, at most one wildcard child, and the Route of the
    pattern that ends there, if any. *)
#[warnings="-register-all"]
Inductive TreeNode :=
| Node (statics : list (string * TreeNode))
       (param : option (string * TreeNode))
       (wildcard : option TreeNode)
       (route : option RouteRef).

Definition leaf : TreeNode := Node [] None None None.

Definition route_of (n : TreeNode) : option RouteRef :=
  match n with
  | Node _ _ _ route => route
  end.

(** [path.split('/')] *)
Fixpoint split (path : string) : list string :=
  match path with
  | EmptyString => [EmptyString]
  | String c rest =>
      if Ascii.eqb c "/" then EmptyString :: split rest
      else match split rest with
           | segment :: segments => String c segment :: segments
           | [] => [String c EmptyString]
           end
  end.

Definition drop_leading_empty (segments : list string) : list string :=
  match segments with
  | EmptyString :: rest => rest
  | _ => segments
  end.

Fixpoint drop_trailing_empty (segments : list string) : list string :=
  match segments with
  | [] => []
  | [EmptyString] => []
  | segment :: rest => segment :: drop_trailing_empty rest
  end.

(** Modelled from the spec: the segments of a pattern or path (missing:
    [radix-router]).  The empty segments that a leading or a trailing slash
    produce are ignored; in strict mode the trailing slash is kept, so that
    [/a/] and [/a] differ. *)
Definition segments (strict : bool) (path : string) : list string :=
  let segs := drop_leading_empty (split path) in
  if strict then segs else drop_trailing_empty segs.

(** The static child for a literal. *)
Fixpoint static_child (literal : string) (statics : list (string * TreeNode))
  : option TreeNode :=
  match statics with
  | [] => None
  | (key, child) :: rest =>
      if String.eqb key literal then Some child else static_child literal rest
  end.

(** Creates or reuses the static child for a literal and updates it. *)
Fixpoint with_static (literal : string) (f : TreeNode -> TreeNode)
    (statics : list (string * TreeNode)) : list (string * TreeNode) :=
  match statics with
  | [] => [(literal, f leaf)]
  | (key, child) :: rest =>
      if String.eqb key literal then (key, f child) :: rest
      else (key, child) :: with_static literal f rest
  end.

(** Modelled from the spec: [insert] (missing: [radix-router]) walks from
    the root, creating a child for each segment if absent; a parameter
    segment creates or reuses the parameter child and records the latest
    name; the end of the pattern gets the Route if it has none yet. *)
Fixpoint insert_at (segs : list string) (route : RouteRef) (n : TreeNode)
  : TreeNode :=
  match n with
  | Node statics param wildcard existing =>
      match segs with
      | [] =>
          Node statics param wildcard
               (match existing with
                | Some r => Some r
                | None => Some route
                end)
      | segment :: rest =>
          match kind segment with
          | Static literal =>
              Node (with_static literal (insert_at rest route) statics)
                   param wildcard existing
          | Param name =>
              let child := from_option snd leaf param in
              Node statics (Some (name, insert_at rest route child))
                   wildcard existing
          | Wildcard =>
              let child := default leaf wildcard in
              Node statics param (Some (insert_at rest route child))
                   existing
          end
      end
  end.

(** Modelled from the spec: the outcome of a lookup (missing:
    [radix-router]). *)
Inductive MatchResult :=
| NotFound
| Found (route : RouteRef) (params : Params) (remaining : list string).

(** [params[name] = value] on an object whose keys keep insertion order. *)
Fixpoint params_set (name value : string) (params : Params) : Params :=
  match params with
  | [] => [(name, value)]
  | (key, old) :: rest =>
      if String.eqb key name then (key, value) :: rest
      else (key, old) :: params_set name value rest
  end.

(** Modelled from the spec: [lookup] (missing: [radix-router]) descends
    greedily, at each level trying the static child for the segment, then
    the parameter child (which matches any one segment and binds it), then
    the wildcard child (which takes all the remaining segments, at least
    one); a branch that dead-ends gives [NotFound], with no backtracking. *)
Fixpoint find (segs : list string) (n : TreeNode) (params : Params)
  : MatchResult :=
  match n with
  | Node statics param wildcard route =>
      match segs with
      | [] =>
          match route with
          | Some r => Found r params []
          | None => NotFound
          end
      | segment :: rest =>
          match static_child segment statics with
          | Some child => find rest child params
          | None =>
              match param with
              | Some (name, child) =>
                  find rest child (params_set name segment params)
              | None =>
                  match wildcard with
                  | Some child =>
                      match route_of child with
                      | Some r => Found r params segs
                      | None => NotFound
                      end
                  | None => NotFound
                  end
              end
          end
      end
  end.

(** The router object: its mode and the root of the tree. *)
Record t := {
  strict : bool;
  root : TreeNode
}.

Definition new (strict : JsValue) : t :=
  {| strict := truthy strict; root := leaf |}.

(** The parameters of a match as the route object shows them in its
    [params] property: the property is set if there are any. *)
Definition exposed (params : Params) : option Params :=
  match params with
  | [] => None
  | _ => Some params
  end.

Definition lookup (tree : t) (path : string)
  : option (RouteRef * option Params) :=
  match find (segments (strict tree) path) (root tree) [] with
  | Found route params _ => Some (route, exposed params)
  | NotFound => None
  end.

Definition insert (tree : t) (route : RouteRef) (path : string) : t :=
  {| strict := strict tree;
     root := insert_at (segments (strict tree) path) route (root tree) |}.

#[global] Instance api : RadixRouter.API t :=
  {| RadixRouter.new := new;
     RadixRouter.lookup := lookup;
     RadixRouter.insert := insert |}.

End PathTree.

(** ** An engine for the examples *)

(** The request targets of the examples are plain paths, without query,
    fragment, dot segments or escapes; for those the [URL] parser answers
    the target itself as [pathname] and no search parameter. *)
#[global] Instance plain_engine : Engine :=
  {| URL_new := fun target => Some {| pathname := target; searchParams := [] |};
     captureStackTrace := fun name message =>
       name +:+ ": " +:+ message +:+ LF +:+ "    at <anonymous>" |}.

(** ** Vocabulary of the properties *)

(** The request as [handle] passes it on, once a route with parameters is
    found: [req.params] and [req.searchParams] are set. *)
Definition populated (req : Req.t) (params : Params) (reqURL : URL) : Req.t :=
  {| Req.method := Req.method req;
     Req.url := Req.url req;
     Req.params := Some params;
     Req.searchParams := Some (searchParams reqURL) |}.

(** The outcome of the [else] branch of [handle]. *)
Definition route_not_found `{Engine} (req : Req.t) : Outcome :=
  {| trace := [];
     settled := Rejects (createError 404 "Route not found");
     request := req |}.

(** The pre-hook lets the handler run: there is none, or it is a function
    that does not raise synchronously. *)
Definition before_passes (methodObj : Method) (req : Req.t) : Prop :=
  truthy (before methodObj) = false
  ∨ ∃ name body, before methodObj = VFun name body ∧ ∀ e, body req ≠ Throws e.


(** The method object a successful registration leaves in the map:
    [before] is the pre-hook when one is given, [undefined] otherwise. *)
Definition binding_of (o : Options.t) : Method :=
  {| handler := Options.handler o;
     before := if truthy (Options.before o) then Options.before o
               else VUndefined |}.

(** The options pass the assertions of [route]. *)
Definition valid_options (o : Options.t) (p m : string) : Prop :=
  Options.path o = Some p ∧ p ≠ ""
  ∧ Options.method o = Some m ∧ m ≠ ""
  ∧ truthy (Options.handler o) = true
  ∧ (truthy (Options.before o) = true → is_function (Options.before o) = true).

(** A pattern is well formed when a wildcard, if any, is its last segment. *)
Fixpoint wildcard_last (segs : list string) : bool :=
  match segs with
  | [] => true
  | segment :: rest =>
      match PathTree.kind segment with
      | PathTree.Wildcard => match rest with [] => true | _ => false end
      | _ => wildcard_last rest
      end
  end.

(** Every Route the tree refers to is one of the first [n] route objects. *)
Fixpoint refs_below (n : nat) (node : PathTree.TreeNode) : Prop :=
  match node with
  | PathTree.Node statics param wildcard route =>
      (fix children (l : list (string * PathTree.TreeNode)) : Prop :=
         match l with
         | [] => True
         | (_, child) :: rest => refs_below n child ∧ children rest
         end) statics
      ∧ match param with
        | Some (_, child) => refs_below n child
        | None => True
        end
      ∧ match wildcard with
        | Some child => refs_below n child
        | None => True
        end
      ∧ match route with
        | Some r => r < n
        | None => True
        end
  end.

(** The routes of the tree are allocated. *)
Definition allocated (r : Router.t PathTree.t) : Prop :=
  refs_below (length (Router.heap r)) (PathTree.root (Router.radixRouter r)).

(** A property of the state that an action keeps, whether it returns or
    raises. *)
Definition keeps {S A} (P : S → Prop) (c : Action S A) : Prop :=
  ∀ s, P s → P (state_of (c s)).

(** * Concrete routers

    The examples run the class over the path tree, with [plain_engine]. *)

(** A handler that returns [body]. *)
Definition respond (name body : string) : JsValue :=
  VFun name (fun _ => Returns (VStr body)).

(** An [async] function whose promise rejects with [e]. *)
Definition rejecting (name : string) (e : ErrorObj) : JsValue :=
  VFun name (fun _ => ReturnsPromise (Rejects e)).

Definition denied : ErrorObj :=
  {| err_name := "Error";
     err_message := "denied";
     err_stack := "Error: denied";
     err_statusCode := None |}.

(** [new Router()] and [new Router({ debug: true })] *)
Definition fresh : Router.t PathTree.t := Router.constructor None.

Definition fresh_debug : Router.t PathTree.t :=
  Router.constructor
    (Some {| Config.strict := VUndefined; Config.debug := VBool true |}).

(** An incoming request. *)
Definition incoming (method : option string) (target : string) : Req.t :=
  {| Req.method := method;
     Req.url := target;
     Req.params := None;
     Req.searchParams := None |}.

(** The same request after [handle] has set [params] and [searchParams]. *)
Definition dispatched (method : string) (target : string)
    (params : option Params) : Req.t :=
  {| Req.method := Some method;
     Req.url := target;
     Req.params := params;
     Req.searchParams := Some [] |}.

(** [router.get('/a', handler)] *)
Definition router_a : Router.t PathTree.t :=
  state_of (Router.get (Some "/a") (respond "a" "ok") VUndefined fresh).

(** [router.get('/admin', auth, handler)] with an [async] pre-hook that
    rejects. *)
Definition router_admin (r : Router.t PathTree.t) : Router.t PathTree.t :=
  state_of (Router.get (Some "/admin") (rejecting "auth" denied)
              (respond "admin" "secret") r).

(** [router.get('/a/:id', byId)] then [router.get('/a/five', five)] *)
Definition router_a_id : Router.t PathTree.t :=
  state_of (Router.get (Some "/a/:id") (respond "byId" "by id") VUndefined fresh).

Definition router_a_five : Router.t PathTree.t :=
  state_of (Router.get (Some "/a/five") (respond "five" "five") VUndefined
              router_a_id).

(** [router.route({ path: '/a', method: 'GET', handler, before: 'nope' })] *)
Definition bad_hook : Options.t :=
  {| Options.path := Some "/a";
     Options.method := Some "GET";
     Options.handler := respond "a" "ok";
     Options.before := VStr "nope" |}.

(** [router.get('/users/:id', getUser)] *)
Definition router_users : Router.t PathTree.t :=
  state_of (Router.get (Some "/users/:id") (respond "getUser" "user")
              VUndefined fresh).

(** [{ path: '/users/:id', method: 'post', handler: createUser }] *)
Definition post_users : Options.t :=
  {| Options.path := Some "/users/:id";
     Options.method := Some "post";
     Options.handler := respond "createUser" "created";
     Options.before := VUndefined |}.


(** * Vocabulary of the further properties *)

(** The options with another [method], or with no [before]. *)
Definition with_method (o : Options.t) (method : string) : Options.t :=
  {| Options.path := Options.path o;
     Options.method := Some method;
     Options.handler := Options.handler o;
     Options.before := Options.before o |}.

Definition without_before (o : Options.t) : Options.t :=
  {| Options.path := Options.path o;
     Options.method := Options.method o;
     Options.handler := Options.handler o;
     Options.before := VUndefined |}.

(** The message of the first of the four opening assertions of [route]
    that fails, if one does. *)
Definition argument_error (options : option Options.t) : option string :=
  match options with
  | None => Some "You must provide a valid route options object."
  | Some o =>
      if negb (truthy_string (Options.path o)) then
        Some "You must provide a valid path."
      else if negb (truthy_string (Options.method o)) then
        Some "You must provide a valid route handler function."
      else if negb (truthy (Options.handler o)) then
        Some "You must provide a valid route handler function."
      else None
  end.

(** A router after a series of calls of [route], each of which returned or
    raised. *)
Fixpoint registrations {T} `{RadixRouter.API T}
    (calls : list (option Options.t)) (r : Router.t T) : Router.t T :=
  match calls with
  | [] => r
  | options :: rest => registrations rest (state_of (Router.route options r))
  end.

(** The verbs of the class, each with the method it registers. *)
Definition verbs {T} `{RadixRouter.API T}
  : list (string
          * (option string → JsValue → JsValue → Action (Router.t T) ())) :=
  [ ("GET", Router.get); ("POST", Router.post); ("PUT", Router.put);
    ("DELETE", Router.delete); ("OPTIONS", Router.options);
    ("TRACE", Router.trace); ("PATCH", Router.patch) ].

(** The request [handle] hands to the pre-hook and the handler:
    [req.params] is replaced when the route found has parameters, and
    [req.searchParams] is set. *)
Definition handed_over (req : Req.t) (route_params : option Params)
    (reqURL : URL) : Req.t :=
  {| Req.method := Req.method req;
     Req.url := Req.url req;
     Req.params := from_option Some (Req.params req) route_params;
     Req.searchParams := Some (searchParams reqURL) |}.

(** The request has a route for its path and a binding for its method. *)
Definition bound_to `{Engine} {T} `{RadixRouter.API T}
    (r : Router.t T) (req : Req.t) (reqURL : URL) (route : RouteRef)
    (route_params : option Params) (methodObj : Method) : Prop :=
  URL_new (Req.url req) = Some reqURL
  ∧ RadixRouter.lookup (Router.radixRouter r) (pathname reqURL)
    = Some (route, route_params)
  ∧ ∃ method, Req.method req = Some method
              ∧ methods (deref (Router.heap r) route) !! method
                = Some methodObj.

(** The diagnostic text of the [catch] block. *)
Definition diagnostic (e : ErrorObj) : string :=
  err_name e +:+ ": " +:+ err_message e +:+ LF +:+ err_stack e.



Definition resolving (name body : string) : JsValue :=
  VFun name (fun _ => ReturnsPromise (Fulfills (VStr body))).

(** [{ path: '/users/:id', method: 'put', handler: putUser, before: check }] *)
Definition put_users : Options.t :=
  {| Options.path := Some "/users/:id";
     Options.method := Some "put";
     Options.handler := respond "putUser" "updated";
     Options.before := respond "check" "checked" |}.

(** A router and a request for a given binding of [GET /a]. *)
Definition router_with (debug : JsValue) (fn1 fn2 : JsValue)
  : Router.t PathTree.t :=
  state_of (Router.get (Some "/a") fn1 fn2
              (Router.constructor
                 (Some {| Config.strict := VUndefined;
                          Config.debug := debug |}))).

Definition get_a : Req.t := incoming (Some "GET") "/a".

(** The route object a call of [route] writes to for a pattern: the one
    [lookup] answers, or else a new one, created and inserted. *)
Definition probe {T} `{RadixRouter.API T} (r : Router.t T) (p : string)
  : RouteRef * Router.t T :=
  match RadixRouter.lookup (Router.radixRouter r) p with
  | Some (route, _) => (route, r)
  | None =>
      (length (Router.heap r),
       {| Router.radixRouter :=
            RadixRouter.insert (Router.radixRouter r)
              (length (Router.heap r)) p;
          Router.debug := Router.debug r;
          Router.heap := Router.heap r ++ [ {| path := p; methods := ∅ |} ] |})
  end.

(** The router once the method object [b] is stored under [key] in the
    route object [ref]. *)
Definition write {T} (ref : RouteRef) (key : string) (b : Method)
    (r : Router.t T) : Router.t T :=
  {| Router.radixRouter := Router.radixRouter r;
     Router.debug := Router.debug r;
     Router.heap :=
       <[ref := {| path := path (deref (Router.heap r) ref);
                   methods := <[key := b]>
                                (methods (deref (Router.heap r) ref)) |}]>
         (Router.heap r) |}.

(** Every method a route object binds is spelled in upper case. *)
Definition upper_keys (h : list Route) : Prop :=
  ∀ ref obj k,
    h !! ref = Some obj → is_Some (methods obj !! k) → toUpperCase k = k.

(** [{ path: '/a', method: 'GET', handler, before: 0 }] *)
Definition zero_hook : Options.t :=
  {| Options.path := Some "/a";
     Options.method := Some "GET";
     Options.handler := respond "a" "ok";
     Options.before := VNum 0 |}.

(** [{ path: '/a', method: 'get', handler }] *)
Definition get_a_options : Options.t :=
  {| Options.path := Some "/a";
     Options.method := Some "get";
     Options.handler := respond "a" "ok";
     Options.before := VUndefined |}.

(** A request for [/a] that comes with a [params] property. *)
Definition get_a_with_params : Req.t :=
  {| Req.method := Some "GET";
     Req.url := "/a";
     Req.params := Some [("left", "over")];
     Req.searchParams := None |}.

(** The parsed target of the examples. *)
Definition plain (target : string) : URL :=
  {| pathname := target; searchParams := [] |}.

(** ** Vocabulary of registering a second time *)

(** The Route a lookup ends on, if any. *)
Definition found_route (m : PathTree.MatchResult) : option RouteRef :=
  match m with
  | PathTree.Found route _ _ => Some route
  | PathTree.NotFound => None
  end.

(** A pattern without wildcard segment. *)
Fixpoint wildcard_free (segs : list string) : bool :=
  match segs with
  | [] => true
  | segment :: rest =>
      match PathTree.kind segment with
      | PathTree.Wildcard => false
      | _ => wildcard_free rest
      end
  end.

(** The static children of the tree are keyed by literals: no key is a
    parameter or wildcard segment. *)
Fixpoint static_keys (node : PathTree.TreeNode) : Prop :=
  match node with
  | PathTree.Node statics param wildcard _ =>
      (fix children (l : list (string * PathTree.TreeNode)) : Prop :=
         match l with
         | [] => True
         | (key, child) :: rest =>
             PathTree.kind key = PathTree.Static key
             ∧ static_keys child ∧ children rest
         end) statics
      ∧ match param with
        | Some (_, child) => static_keys child
        | None => True
        end
      ∧ match wildcard with
        | Some child => static_keys child
        | None => True
        end
  end.

(** [router.put('/f/:id/x', x)], then [router.get('/f/*', list)], then
    [router.post('/f/*', add)]. *)
Definition router_f_x : Router.t PathTree.t :=
  state_of (Router.put (Some "/f/:id/x") (respond "x" "x") VUndefined fresh).

Definition router_f_star : Router.t PathTree.t :=
  state_of (Router.get (Some "/f/*") (respond "list" "list") VUndefined
              router_f_x).

Definition router_f_star_again : Router.t PathTree.t :=
  state_of (Router.post (Some "/f/*") (respond "add" "add") VUndefined
              router_f_star).

(** * Properties *)

(** ** Registration *)

Section Registration.
Context {engine : Engine} {T : Type} {api : RadixRouter.API T}.

(** C8. A registration whose options object is missing, or whose pattern
    or method is missing or empty, or whose handler is missing (any falsy
    value), raises an assertion error synchronously, before the router is
    touched: the state at the raise is the state at the call.  The verbs
    raise the same way, in [routeOptionsHelper], when no function is given. *)
Theorem route_rejects_missing_argument
    (r : Router.t T) (options : option Options.t) :
  (∀ o, options = Some o →
        truthy_string (Options.path o) = false
        ∨ truthy_string (Options.method o) = false
        ∨ truthy (Options.handler o) = false) →
  (∃ message, Router.route options r = Raised r (MkAssertionError (Some message)))
  ∧ (∀ path method fn1 fn2, truthy fn1 = false →
       ∃ message,
         routeOptionsHelper path method fn1 fn2 r
         = Raised r (MkAssertionError (Some message))).
Proof.
  intros Hmissing. split.
  - destruct options as [o|]; [|by eexists].
    destruct (Hmissing o eq_refl) as [Hp | [Hm | Hh]];
      unfold Router.route, mbind, Action_bind; cbn.
    + destruct (Options.path o) as [p|]; cbn in *; [|by eexists].
      rewrite Hp. by eexists.
    + destruct (Options.path o) as [p|]; cbn; [|by eexists].
      destruct (negb (String.eqb p "")); cbn; [|by eexists].
      destruct (Options.method o) as [m|]; cbn in *; [|by eexists].
      rewrite Hm. by eexists.
    + destruct (Options.path o) as [p|]; cbn; [|by eexists].
      destruct (negb (String.eqb p "")); cbn; [|by eexists].
      destruct (Options.method o) as [m|]; cbn; [|by eexists].
      destruct (negb (String.eqb m "")); cbn; [|by eexists].
      rewrite Hh. by eexists.
  - intros path method fn1 fn2 Hfn1.
    unfold routeOptionsHelper, mbind, Action_bind, assert. rewrite Hfn1.
    by eexists.
Qed.

Lemma deref_Some (h : list Route) (ref : RouteRef) (obj : Route) :
  h !! ref = Some obj → deref h ref = obj.
Proof. unfold deref. by intros ->. Qed.

Lemma deref_insert (h : list Route) (ref : RouteRef) (obj : Route) :
  ref < length h → deref (<[ref := obj]> h) ref = obj.
Proof. intros Hlt. apply deref_Some. by apply list_lookup_insert_eq. Qed.

(** What [route] does once its four assertions pass. *)
Lemma route_checked (r : Router.t T) (o : Options.t) (p m : string) :
  Options.path o = Some p → p ≠ "" →
  Options.method o = Some m → m ≠ "" →
  truthy (Options.handler o) = true →
  Router.route (Some o) r =
    (found ← gets (fun r => RadixRouter.lookup (Router.radixRouter r) p);
     route ← match found with
             | Some (route, _) => mret route
             | None =>
                 route ← Router.new_route p;
                 Router.radix_insert route p;;
                 mret route
             end;
     Router.methods_set route (toUpperCase m)
       {| handler := Options.handler o; before := VUndefined |};;
     if truthy (Options.before o) then
       assert (is_function (Options.before o)) None;;
       Router.set_before route (toUpperCase m) (Options.before o)
     else
       mret tt) r.
Proof.
  intros Hp Hpne Hm Hmne Hh.
  unfold Router.route. unfold mbind at 1 2 3 4. unfold Action_bind at 1 2 3 4.
  cbn [assert_object mret Action_ret]. rewrite Hp, Hm, Hh.
  unfold assert_string, truthy_string.
  apply String.eqb_neq in Hpne, Hmne. by rewrite Hpne, Hmne.
Qed.

(** The state [route] leaves when the pattern resolves to a Route. *)
Lemma route_found_run (r : Router.t T) (o : Options.t) (p m : string)
    (ref : RouteRef) (ps : option Params) (obj : Route) :
  valid_options o p m →
  RadixRouter.lookup (Router.radixRouter r) p = Some (ref, ps) →
  Router.heap r !! ref = Some obj →
  Router.route (Some o) r =
    Ok {| Router.radixRouter := Router.radixRouter r;
          Router.debug := Router.debug r;
          Router.heap :=
            <[ref := {| path := path obj;
                        methods := <[toUpperCase m := binding_of o]>
                                     (methods obj) |}]>
              (Router.heap r) |} tt.
Proof.
  intros (Hp & Hpne & Hm & Hmne & Hh & Hb) Hlookup Hobj.
  assert (Hlt : ref < length (Router.heap r)) by by eapply lookup_lt_Some.
  rewrite (route_checked r o p m) by done.
  unfold mbind, Action_bind, gets. rewrite Hlookup. cbn [mret Action_ret].
  unfold Router.methods_set, Router.update_route, modify, binding_of.
  cbn [Router.heap Router.radixRouter Router.debug].
  rewrite (deref_Some _ _ obj) by done.
  destruct (truthy (Options.before o)) eqn:Hbefore; [|done].
  rewrite (Hb eq_refl). cbn [assert mret Action_ret].
  unfold Router.set_before, Router.update_route, modify.
  cbn [Router.heap Router.radixRouter Router.debug].
  rewrite deref_insert by done. cbn [path methods].
  by rewrite list_insert_insert_eq, alter_insert_eq.
Qed.

(** The state [route] leaves when the pattern resolves to nothing: a new
    route object, inserted in the tree, with the one binding. *)
Lemma route_new_run (r : Router.t T) (o : Options.t) (p m : string) :
  valid_options o p m →
  RadixRouter.lookup (Router.radixRouter r) p = None →
  Router.route (Some o) r =
    Ok {| Router.radixRouter :=
            RadixRouter.insert (Router.radixRouter r)
              (length (Router.heap r)) p;
          Router.debug := Router.debug r;
          Router.heap :=
            Router.heap r
            ++ [ {| path := p;
                    methods := <[toUpperCase m := binding_of o]> ∅ |} ] |} tt.
Proof.
  intros (Hp & Hpne & Hm & Hmne & Hh & Hb) Hlookup.
  rewrite (route_checked r o p m) by done.
  unfold mbind, Action_bind, gets. rewrite Hlookup.
  cbn [mret Action_ret Router.new_route Router.radix_insert modify
       Router.heap Router.radixRouter Router.debug].
  unfold Router.methods_set, Router.update_route, modify, binding_of.
  cbn [Router.heap Router.radixRouter Router.debug].
  assert (Hnew : ∀ (h : list Route) (x y : Route),
            <[length h := y]> (h ++ [x]) = h ++ [y]).
  { intros h x y. rewrite <-(Nat.add_0_r (length h)). by rewrite insert_app_r. }
  assert (Hderef : ∀ (h : list Route) (x : Route),
            deref (h ++ [x]) (length h) = x).
  { intros h x. apply deref_Some. by rewrite list_lookup_middle. }
  rewrite Hderef, Hnew. cbn [path methods].
  destruct (truthy (Options.before o)) eqn:Hbefore; [|done].
  rewrite (Hb eq_refl). cbn [assert mret Action_ret].
  unfold Router.set_before, Router.update_route, modify.
  cbn [Router.heap Router.radixRouter Router.debug].
  rewrite Hderef, Hnew. cbn [path methods]. by rewrite alter_insert_eq.
Qed.

(** One registration of a pattern that the router already resolves to a
    Route (the test [route] itself makes) reuses that Route: no route object is
    created and the tree is left as it is; the binding goes into the
    method map of the existing Route, where it replaces the binding the
    method had (the last write wins) and leaves those of the other methods
    alone, so that one Route serves all the methods of the pattern. *)
Theorem route_reuses_registered_route
    (r : Router.t T) (o : Options.t) (p m : string)
    (ref : RouteRef) (ps : option Params) (obj : Route) :
  valid_options o p m →
  RadixRouter.lookup (Router.radixRouter r) p = Some (ref, ps) →
  Router.heap r !! ref = Some obj →
  ∃ r' obj',
    Router.route (Some o) r = Ok r' tt
    ∧ Router.radixRouter r' = Router.radixRouter r
    ∧ length (Router.heap r') = length (Router.heap r)
    ∧ Router.heap r' !! ref = Some obj'
    ∧ path obj' = path obj
    ∧ methods obj' !! toUpperCase m = Some (binding_of o)
    ∧ (∀ k, k ≠ toUpperCase m → methods obj' !! k = methods obj !! k)
    ∧ (∀ ref', ref' ≠ ref → Router.heap r' !! ref' = Router.heap r !! ref').
Proof.
  intros Hvalid Hlookup Hobj.
  assert (Hlt : ref < length (Router.heap r)) by by eapply lookup_lt_Some.
  eexists _, _. split; [by eapply route_found_run|].
  cbn [Router.heap Router.radixRouter].
  rewrite length_insert, list_lookup_insert_eq by done.
  repeat split; cbn [path methods].
  - by rewrite lookup_insert_eq.
  - intros k Hk. by rewrite lookup_insert_ne.
  - intros ref' Href. by rewrite list_lookup_insert_ne.
Qed.

(** A truthy pre-hook that is not a function makes [route] raise, but
    only after the binding is written: the router left behind has the
    handler bound to the method. *)
Lemma route_non_function_before
    (r : Router.t T) (o : Options.t) (p m : string) :
  Options.path o = Some p → p ≠ "" →
  Options.method o = Some m → m ≠ "" →
  truthy (Options.handler o) = true →
  truthy (Options.before o) = true →
  is_function (Options.before o) = false →
  (∀ ref ps, RadixRouter.lookup (Router.radixRouter r) p = Some (ref, ps) →
             ref < length (Router.heap r)) →
  ∃ r' ref,
    Router.route (Some o) r = Raised r' (MkAssertionError None)
    ∧ methods (deref (Router.heap r') ref) !! toUpperCase m
      = Some {| handler := Options.handler o; before := VUndefined |}.
Proof.
  intros Hp Hpne Hm Hmne Hh Hb Hfun Hwf.
  rewrite (route_checked r o p m) by done.
  unfold mbind, Action_bind, gets. rewrite Hb, Hfun.
  destruct (RadixRouter.lookup _ _) as [[ref ps]|] eqn:Hlookup;
    cbn [mret Action_ret Router.new_route Router.radix_insert modify
         Router.methods_set Router.update_route assert raise
         Router.heap Router.radixRouter Router.debug];
    eexists _, _; (split; [reflexivity|]);
    cbn [Router.heap]; rewrite deref_insert.
  - cbn [methods]. by rewrite lookup_insert_eq.
  - by eapply Hwf.
  - cbn [methods]. by rewrite lookup_insert_eq.
  - rewrite length_app. cbn. lia.
Qed.

End Registration.

(** ** Registration over the path tree *)

Lemma kind_static (segment literal : string) :
  PathTree.kind segment = PathTree.Static literal → literal = segment.
Proof.
  unfold PathTree.kind. destruct segment as [|c name]; [by intros [= <-]|].
  destruct (Ascii.eqb c ":"); [done|].
  destruct (String.eqb _ _); [done|]. by intros [= <-].
Qed.

(** A tree without routes matches nothing. *)
Lemma find_leaf (segs : list string) (params : Params) :
  PathTree.find segs PathTree.leaf params = PathTree.NotFound.
Proof. by destruct segs. Qed.

(** In a tree that holds one well-formed pattern, the pattern read as a
    path leads to its own Route. *)
Lemma find_insert_leaf (segs : list string) (route : RouteRef)
    (params : Params) :
  wildcard_last segs = true →
  ∃ params' remaining,
    PathTree.find segs (PathTree.insert_at segs route PathTree.leaf) params
    = PathTree.Found route params' remaining.
Proof.
  revert params. induction segs as [|segment rest IH]; intros params Hwf.
  - by eexists _, _.
  - cbn [wildcard_last] in Hwf. cbn [PathTree.insert_at PathTree.leaf].
    destruct (PathTree.kind segment) as [literal|name|] eqn:Hkind.
    + apply kind_static in Hkind as ->.
      cbn [PathTree.with_static PathTree.find PathTree.static_child].
      rewrite String.eqb_refl. by apply IH.
    + cbn [PathTree.find PathTree.static_child from_option]. by apply IH.
    + destruct rest; [|done].
      cbn [PathTree.find PathTree.static_child default PathTree.insert_at
           PathTree.leaf PathTree.route_of].
      by eexists _, _.
Qed.

(** On a new router, registering a well-formed pattern twice gives one
    Route, found under the pattern, that holds the binding of the second
    registration and, for another method, that of the first. *)
Theorem route_twice_on_new_router
    (config : option Config.t) (o1 o2 : Options.t) (p m1 m2 : string) :
  valid_options o1 p m1 →
  valid_options o2 p m2 →
  let r0 : Router.t PathTree.t := Router.constructor config in
  wildcard_last (PathTree.segments (PathTree.strict (Router.radixRouter r0)) p)
    = true →
  ∃ r1 r2 obj params,
    Router.route (Some o1) r0 = Ok r1 tt
    ∧ Router.route (Some o2) r1 = Ok r2 tt
    ∧ Router.radixRouter r2 = Router.radixRouter r1
    ∧ RadixRouter.lookup (Router.radixRouter r2) p = Some (0, params)
    ∧ Router.heap r2 = [obj]
    ∧ methods obj !! toUpperCase m2 = Some (binding_of o2)
    ∧ (toUpperCase m1 ≠ toUpperCase m2 →
       methods obj !! toUpperCase m1 = Some (binding_of o1)).
Proof.
  intros Hvalid1 Hvalid2 r0 Hwf.
  assert (Hnone : RadixRouter.lookup (Router.radixRouter r0) p = None).
  { cbn. unfold PathTree.lookup. cbn. by rewrite find_leaf. }
  pose proof (route_new_run r0 o1 p m1 Hvalid1 Hnone) as Hrun1.
  cbn [Router.heap r0 Router.constructor length app] in Hrun1.
  destruct (find_insert_leaf _ 0 [] Hwf) as (params & remaining & Hfind).
  eexists _, _, _, (PathTree.exposed params). split; [exact Hrun1|].
  split.
  { eapply (route_found_run _ o2 p m2 0 (PathTree.exposed params));
      [done| |reflexivity].
    cbn. unfold PathTree.lookup. cbn. cbn in Hfind. by rewrite Hfind. }
  cbn [Router.radixRouter Router.heap]. repeat split.
  - cbn. unfold PathTree.lookup. cbn. cbn in Hfind. by rewrite Hfind.
  - cbn [methods]. by rewrite lookup_insert_eq.
  - intros Hne. cbn [methods].
    by rewrite lookup_insert_ne, lookup_insert_eq.
Qed.

(** ** The routes of the tree are allocated *)

Lemma refs_below_mono (n n' : nat) (node : PathTree.TreeNode) :
  n ≤ n' → refs_below n node → refs_below n' node.
Proof.
  intros Hle. revert node.
  fix IH 1. intros [statics param wildcard route].
  cbn [refs_below]. intros (Hstatics & Hparam & Hwildcard & Hroute).
  repeat split.
  - clear Hparam Hwildcard Hroute.
    induction statics as [|[key child] rest IHrest]; [done|].
    destruct Hstatics as [Hchild Hrest]. split; [by apply IH|by apply IHrest].
  - destruct param as [[name child]|]; [by apply IH|done].
  - destruct wildcard as [child|]; [by apply IH|done].
  - destruct route as [ref|]; [lia|done].
Qed.

Lemma refs_below_leaf (n : nat) : refs_below n PathTree.leaf.
Proof. by cbn. Qed.

Lemma refs_below_static_child (n : nat) (literal : string)
    (statics : list (string * PathTree.TreeNode)) (child : PathTree.TreeNode) :
  refs_below n (PathTree.Node statics None None None) →
  PathTree.static_child literal statics = Some child →
  refs_below n child.
Proof.
  cbn [refs_below]. intros (Hstatics & _).
  induction statics as [|[key c] rest IH]; [done|].
  destruct Hstatics as [Hc Hrest]. cbn [PathTree.static_child].
  destruct (String.eqb key literal); [by intros [= <-]|by apply IH].
Qed.

Lemma refs_below_with_static (n : nat) (literal : string)
    (f : PathTree.TreeNode → PathTree.TreeNode)
    (statics : list (string * PathTree.TreeNode)) :
  (∀ node, refs_below n node → refs_below n (f node)) →
  refs_below n (PathTree.Node statics None None None) →
  refs_below n
    (PathTree.Node (PathTree.with_static literal f statics) None None None).
Proof.
  intros Hf. cbn [refs_below]. intros (Hstatics & _). repeat split.
  induction statics as [|[key c] rest IH]; cbn [PathTree.with_static].
  - split; [|done]. apply Hf, refs_below_leaf.
  - destruct Hstatics as [Hc Hrest].
    destruct (String.eqb key literal); (split; [auto|]); [done|by apply IH].
Qed.

(** [insert] keeps the routes allocated when the new one is. *)
Lemma refs_below_insert_at (n : nat) (segs : list string) (route : RouteRef)
    (node : PathTree.TreeNode) :
  route < n → refs_below n node →
  refs_below n (PathTree.insert_at segs route node).
Proof.
  intros Hroute. revert node.
  induction segs as [|segment rest IH];
    intros [statics param wildcard existing] Hnode;
    pose proof Hnode as (Hstatics & Hparam & Hwildcard & Hexisting);
    cbn [PathTree.insert_at].
  - repeat split; try done. by destruct existing.
  - destruct (PathTree.kind segment) as [literal|name|].
    + repeat split; try done.
      by apply (refs_below_with_static n literal _ statics (IH)).
    + repeat split; try done. apply IH.
      destruct param as [[old child]|]; [done|apply refs_below_leaf].
    + repeat split; try done. apply IH.
      destruct wildcard as [child|]; [done|apply refs_below_leaf].
Qed.

(** [lookup] answers allocated routes only. *)
Lemma refs_below_find (n : nat) (segs : list string)
    (node : PathTree.TreeNode) (params params' : Params)
    (route : RouteRef) (remaining : list string) :
  refs_below n node →
  PathTree.find segs node params = PathTree.Found route params' remaining →
  route < n.
Proof.
  revert node params. induction segs as [|segment rest IH];
    intros [statics param wildcard existing] params Hnode;
    pose proof Hnode as (Hstatics & Hparam & Hwildcard & Hexisting);
    cbn [PathTree.find].
  - destruct existing as [r|]; [by intros [= <- _ _]|done].
  - destruct (PathTree.static_child segment statics) as [child|] eqn:Hchild.
    + apply IH. eapply refs_below_static_child; [|done]. by repeat split.
    + destruct param as [[name child]|]; [by apply IH|].
      destruct wildcard as [[? ? ? [r|]]|]; try done.
      intros [= <- _ _]. by destruct Hwildcard as (_ & _ & _ & Hr).
Qed.

Lemma allocated_lookup (r : Router.t PathTree.t) (p : string)
    (ref : RouteRef) (ps : option Params) :
  allocated r →
  RadixRouter.lookup (Router.radixRouter r) p = Some (ref, ps) →
  ref < length (Router.heap r).
Proof.
  unfold allocated. cbn. unfold PathTree.lookup. intros Halloc.
  destruct (PathTree.find _ _ _) as [|route params remaining] eqn:Hfind;
    [done|].
  intros [= <- _]. by eapply refs_below_find.
Qed.

Lemma keeps_bind {S A B} (P : S → Prop) (c : Action S A) (k : A → Action S B) :
  keeps P c → (∀ a, keeps P (k a)) → keeps P (c ≫= k).
Proof.
  intros Hc Hk s Hs. unfold mbind, Action_bind.
  specialize (Hc s Hs). destruct (c s) as [s' a|s' e]; [by apply Hk|done].
Qed.

Lemma keeps_ret {S A} (P : S → Prop) (a : A) : keeps P (mret a : Action S A).
Proof. by intros s Hs. Qed.

Lemma keeps_raise {S A} (P : S → Prop) (e : AssertionError) :
  keeps P (raise e : Action S A).
Proof. by intros s Hs. Qed.

Lemma keeps_gets {S A} (P : S → Prop) (f : S → A) : keeps P (gets f).
Proof. by intros s Hs. Qed.

Lemma keeps_assert {S} (P : S → Prop) (value : bool) (message : option string) :
  keeps P (assert value message : Action S ()).
Proof. destruct value; [apply keeps_ret|apply keeps_raise]. Qed.

Lemma keeps_assert_object {S A} (P : S → Prop) (x : option A)
    (message : option string) :
  keeps P (assert_object x message : Action S A).
Proof. destruct x; [apply keeps_ret|apply keeps_raise]. Qed.

Lemma keeps_assert_string {S} (P : S → Prop) (x message : option string) :
  keeps P (assert_string x message : Action S string).
Proof.
  unfold assert_string. destruct x; [|apply keeps_raise].
  destruct (truthy_string _); [apply keeps_ret|apply keeps_raise].
Qed.

Lemma keeps_update_route (ref : RouteRef) (f : Route → Route) :
  keeps allocated (Router.update_route ref f).
Proof.
  intros r. unfold allocated. cbn. by rewrite length_insert.
Qed.

(** Creating a route object and inserting it keeps the tree allocated. *)
Lemma keeps_new_route_insert (p : string)
    (k : RouteRef → Action (Router.t PathTree.t) ()) :
  (∀ ref, keeps allocated (k ref)) →
  keeps allocated
    (route ← Router.new_route p; Router.radix_insert route p;; k route).
Proof.
  intros Hk r Hr. unfold mbind, Action_bind.
  cbn [Router.new_route Router.radix_insert modify].
  apply Hk. unfold allocated.
  cbn [Router.heap Router.radixRouter RadixRouter.insert PathTree.api
       PathTree.insert PathTree.root].
  rewrite length_app. cbn [length].
  apply refs_below_insert_at; [lia|].
  eapply refs_below_mono; [|exact Hr]. lia.
Qed.

(** A new router has its routes allocated, and [route] keeps them so,
    whether it returns or raises. *)
Theorem allocated_constructor (config : option Config.t) :
  allocated (Router.constructor config).
Proof. by cbn. Qed.

Theorem allocated_route (options : option Options.t) :
  keeps allocated (Router.route options).
Proof.
  assert (Hrest : ∀ (o : Options.t) (m : string) (route : RouteRef),
            keeps allocated
              (Router.methods_set route (toUpperCase m)
                 {| handler := Options.handler o; before := VUndefined |};;
               if truthy (Options.before o) then
                 assert (is_function (Options.before o)) None;;
                 Router.set_before route (toUpperCase m) (Options.before o)
               else mret ())).
  { intros o m route. apply keeps_bind; [apply keeps_update_route|].
    intros _. destruct (truthy (Options.before o)); [|apply keeps_ret].
    apply keeps_bind; [apply keeps_assert|].
    intros _. apply keeps_update_route. }
  unfold Router.route.
  apply keeps_bind; [apply keeps_assert_object|]. intros o.
  apply keeps_bind; [apply keeps_assert_string|]. intros p.
  apply keeps_bind; [apply keeps_assert_string|]. intros m.
  apply keeps_bind; [apply keeps_assert|]. intros _.
  apply keeps_bind; [apply keeps_gets|]. intros [[route ps]|].
  - apply keeps_bind; [apply keeps_ret|]. intros route'. apply Hrest.
  - intros r Hr.
    pose proof (keeps_new_route_insert p _ (Hrest o m) r Hr) as Hkeeps.
    unfold mbind, Action_bind in *.
    cbn [Router.new_route Router.radix_insert modify mret Action_ret] in *.
    exact Hkeeps.
Qed.

(** ** Dispatch *)

Section Dispatch.
Context {engine : Engine} {T : Type} {api : RadixRouter.API T}.

Lemma handle_no_route (r : Router.t T) (req : Req.t) (reqURL : URL) :
  URL_new (Req.url req) = Some reqURL →
  RadixRouter.lookup (Router.radixRouter r) (pathname reqURL) = None →
  Router.handle r req = route_not_found req.
Proof.
  intros Hurl Hlookup. unfold Router.handle. by rewrite Hurl, Hlookup.
Qed.

Lemma handle_no_method (r : Router.t T) (req : Req.t) (reqURL : URL) :
  URL_new (Req.url req) = Some reqURL →
  Req.method req = None →
  Router.handle r req = route_not_found req.
Proof.
  intros Hurl Hmethod. unfold Router.handle. rewrite Hurl, Hmethod.
  by destruct (RadixRouter.lookup _ _) as [[? ?]|].
Qed.

(** [handle] gets past its guard, and its promise is fulfilled, only for a
    parsed target, a route for its path and a defined method. *)
Lemma handle_dispatched (r : Router.t T) (req : Req.t) (v : JsValue) :
  settled (Router.handle r req) = Fulfills v →
  ∃ reqURL route params method,
    URL_new (Req.url req) = Some reqURL
    ∧ RadixRouter.lookup (Router.radixRouter r) (pathname reqURL)
      = Some (route, params)
    ∧ Req.method req = Some method.
Proof.
  unfold Router.handle. intros Hsettled.
  destruct (URL_new (Req.url req)) as [reqURL|]; [|done].
  destruct (RadixRouter.lookup _ _) as [[route params]|] eqn:Hlookup;
    [|by destruct (Req.method req)].
  destruct (Req.method req) as [method|]; [|done].
  by exists reqURL, route, params, method.
Qed.

(** What the [try] block hands over, in the two branches of [handle]. *)
Lemma handle_found (r : Router.t T) (req : Req.t) (reqURL : URL)
    (route : RouteRef) (route_params : option Params) (method : string) :
  URL_new (Req.url req) = Some reqURL →
  RadixRouter.lookup (Router.radixRouter r) (pathname reqURL)
    = Some (route, route_params) →
  Req.method req = Some method →
  let req' :=
    {| Req.method := Req.method req;
       Req.url := Req.url req;
       Req.params := from_option Some (Req.params req) route_params;
       Req.searchParams := Some (searchParams reqURL) |} in
  let attempt :=
    Router.try_block (methods (deref (Router.heap r) route) !! method) req' in
  Router.handle r req =
    match attempt.2 with
    | inr v => {| trace := attempt.1; settled := Fulfills v; request := req' |}
    | inl e => {| trace := attempt.1 ++ (Router.catch_block r e).1;
                  settled := (Router.catch_block r e).2;
                  request := req' |}
    end.
Proof.
  intros Hurl Hlookup Hmethod. cbn zeta.
  unfold Router.handle. rewrite Hurl, Hlookup.
  rewrite Hmethod at 1.
  replace (match route_params with Some ps => Some ps | None => Req.params req end)
    with (from_option Some (Req.params req) route_params)
    by (by destruct route_params).
  by destruct (Router.try_block _ _) as [evs [e|v]].
Qed.

(** Every call the [try] block makes receives the request it was given. *)
Lemma try_block_calls (methodObj : option Method) (req : Req.t)
    (callee : JsValue) (rq : Req.t) :
  EvCall callee rq ∈ (Router.try_block methodObj req).1 → rq = req.
Proof.
  unfold Router.try_block, invoke.
  destruct methodObj as [[h b]|]; cbn; [|by intros ?%elem_of_nil].
  destruct (truthy b), b, h; cbn;
    repeat match goal with
    | |- context [match ?c ?x with _ => _ end] => destruct (c x); cbn
    | |- context [match ?p with Fulfills _ => _ | Rejects _ => _ end] =>
        destruct p; cbn
    end;
    rewrite ?elem_of_app, ?elem_of_cons, ?elem_of_nil;
    intros Hin; decompose [or] Hin; try done; congruence.
Qed.

(** A bound pre-hook is the first thing the [try] block calls. *)
Lemma try_block_before_first (methodObj : Method) (req : Req.t) :
  truthy (before methodObj) = true →
  is_function (before methodObj) = true →
  ∃ rest,
    (Router.try_block (Some methodObj) req).1
    = EvCall (before methodObj) req :: rest.
Proof.
  unfold Router.try_block, invoke. destruct methodObj as [h b]; cbn.
  intros -> Hfun. destruct b; try done. cbn.
  destruct (body req) as [e|v|p]; cbn; [by eexists| |];
    destruct h; cbn;
    repeat match goal with
    | |- context [match ?c ?x with _ => _ end] => destruct (c x); cbn
    | |- context [match ?p with Fulfills _ => _ | Rejects _ => _ end] =>
        destruct p; cbn
    end; by eexists.
Qed.

Lemma try_block_handler_called (methodObj : Method) (req : Req.t) :
  is_function (handler methodObj) = true →
  before_passes methodObj req →
  EvCall (handler methodObj) req ∈ (Router.try_block (Some methodObj) req).1.
Proof.
  unfold Router.try_block, invoke, before_passes.
  destruct methodObj as [h b]; cbn. intros Hfun Hpass.
  destruct h as [| | | | |hname hbody|]; try done. cbn.
  destruct Hpass as [-> | (name & body & -> & Hbody)]; cbn.
  - destruct (hbody req) as [e|v|[v|e]]; cbn; set_solver.
  - specialize (Hbody) as Hb. destruct (body req) as [e|v|p]; cbn.
    + by destruct (Hb e).
    + destruct (hbody req) as [e|v'|[v'|e]]; cbn; set_solver.
    + destruct (hbody req) as [e|v'|[v'|e]]; cbn; set_solver.
Qed.

(** The two ways of the [catch] block: it sends status 500 once and the
    promise is fulfilled, or ([debug] truthy, and the template literal
    raises) it sends nothing and the promise rejects with what was raised. *)
Lemma catch_block_cases (r : Router.t T) (e : JsValue) :
  (∃ data,
     Router.catch_block r e = ([EvSend 500 data], Fulfills VUndefined)
     ∧ (is_Some data ↔ truthy (Router.debug r) = true)
     ∧ ∀ text, data = Some text → Router.template e = inr text)
  ∨ (∃ raised,
       Router.catch_block r e = ([], Rejects (VError raised))
       ∧ truthy (Router.debug r) = true
       ∧ Router.template e = inl raised).
Proof.
  unfold Router.catch_block. destruct (truthy (Router.debug r)).
  - destruct (Router.template e) as [raised|text].
    + right. by exists raised.
    + left. eexists. split; [done|]. split; [by split; [|eexists]|].
      by intros ? [= <-].
  - left. eexists. split; [done|]. split; [|done]. by split; [intros [? ?]|].
Qed.

(** What the [catch] block makes of an [Error] object: it sends status
    500, with an empty body unless [debug] is truthy, and then the name,
    message and stack of the failure. *)
Lemma catch_block_body (r : Router.t T) (e : ErrorObj) :
  ∃ data,
    Router.catch_block r (VError e) = ([EvSend 500 data], Fulfills VUndefined)
    ∧ (truthy (Router.debug r) = false → body_of data = "")
    ∧ (truthy (Router.debug r) = true →
       body_of data
       = err_name e +:+ ": " +:+ err_message e +:+ LF +:+ err_stack e
       ∧ body_of data ≠ "").
Proof.
  unfold Router.catch_block. cbn [Router.template].
  destruct (truthy (Router.debug r)); eexists; (split; [reflexivity|]);
    split; try done.
  intros _. split; [done|]. cbn. by destruct (err_name e).
Qed.

(** A failure of the [try] block is answered with status 500; the payload
    is the diagnostic text when [debug] is truthy and [null] otherwise. *)
Lemma handle_caught (r : Router.t T) (req : Req.t) (reqURL : URL)
    (route : RouteRef) (route_params : option Params) (method : string)
    (evs : list Event) (e : ErrorObj) :
  URL_new (Req.url req) = Some reqURL →
  RadixRouter.lookup (Router.radixRouter r) (pathname reqURL)
    = Some (route, route_params) →
  Req.method req = Some method →
  Router.try_block (methods (deref (Router.heap r) route) !! method)
    {| Req.method := Req.method req;
       Req.url := Req.url req;
       Req.params := from_option Some (Req.params req) route_params;
       Req.searchParams := Some (searchParams reqURL) |}
  = (evs, inl (VError e)) →
  trace (Router.handle r req)
  = evs ++ [EvSend 500
              (if truthy (Router.debug r)
               then Some (err_name e +:+ ": " +:+ err_message e
                          +:+ LF +:+ err_stack e)
               else None)]
  ∧ settled (Router.handle r req) = Fulfills VUndefined.
Proof.
  intros Hurl Hlookup Hmethod Htry.
  rewrite (handle_found r req reqURL route route_params method) by done.
  rewrite Htry. cbn [fst snd]. unfold Router.catch_block.
  cbn [Router.template]. by destruct (truthy (Router.debug r)).
Qed.

(** A route without a binding for the method: reading [before] off the
    [undefined] binding raises inside the [try] block, and the request is
    answered with status 500. *)
Lemma unbound_method_is_caught (r : Router.t T) (req : Req.t) (reqURL : URL)
    (route : RouteRef) (route_params : option Params) (method : string) :
  URL_new (Req.url req) = Some reqURL →
  RadixRouter.lookup (Router.radixRouter r) (pathname reqURL)
    = Some (route, route_params) →
  Req.method req = Some method →
  methods (deref (Router.heap r) route) !! method = None →
  (∃ data, trace (Router.handle r req) = [EvSend 500 data])
  ∧ settled (Router.handle r req) = Fulfills VUndefined.
Proof.
  intros Hurl Hlookup Hmethod Hunbound.
  edestruct (handle_caught r req reqURL route route_params method [])
    as [Htrace Hsettled]; [done..| |].
  - rewrite Hunbound. reflexivity.
  - split; [|done]. rewrite Htrace. by eexists.
Qed.


(** A pre-hook that returns a promise: the promise is dropped and the
    handler is called at once, however the promise settles. *)
Lemma try_block_before_not_awaited (methodObj : Method) (req : Req.t)
    (name hname : string) (body hbody : Req.t → Completion JsValue)
    (p : Settled JsValue) :
  before methodObj = VFun name body →
  handler methodObj = VFun hname hbody →
  body req = ReturnsPromise p →
  (Router.try_block (Some methodObj) req).1
  = [EvCall (before methodObj) req; EvFloating p;
     EvCall (handler methodObj) req].
Proof.
  unfold Router.try_block, invoke. destruct methodObj as [h b]; cbn.
  intros -> -> Hbody. cbn. rewrite Hbody.
  by destruct (hbody req) as [e|v|[v|e]].
Qed.

(** A handler that raises, or whose promise rejects, fails the [try]
    block with what it raised. *)
Lemma try_block_handler_fails (methodObj : Method) (req : Req.t)
    (hname : string) (hbody : Req.t → Completion JsValue) (e : JsValue) :
  before_passes methodObj req →
  handler methodObj = VFun hname hbody →
  hbody req = Throws e ∨ hbody req = ReturnsPromise (Rejects e) →
  (Router.try_block (Some methodObj) req).2 = inl e.
Proof.
  unfold Router.try_block, invoke, before_passes.
  destruct methodObj as [h b]; cbn. intros Hpass -> Hfails.
  destruct Hpass as [-> | (name & body & -> & Hbody)]; cbn.
  - by destruct Hfails as [-> | ->].
  - destruct (body req) as [e'|v|p] eqn:Hb; cbn.
    + by destruct (Hbody e').
    + by destruct Hfails as [-> | ->].
    + by destruct Hfails as [-> | ->].
Qed.

(** C5 (amended). When the path of the request matches no route, [handle]
    raises the error [createError(404, 'Route not found')]: the promise it
    returns rejects with that error, whose status code is 404; [handle]
    itself calls nothing and sends nothing, and leaves the request as it
    was.  Turning the error into a response is left to the caller. *)
Theorem handle_unmatched_path_raises_404
    (r : Router.t T) (req : Req.t) (reqURL : URL) :
  URL_new (Req.url req) = Some reqURL →
  RadixRouter.lookup (Router.radixRouter r) (pathname reqURL) = None →
  settled (Router.handle r req) = Rejects (createError 404 "Route not found")
  ∧ err_statusCode (createError 404 "Route not found") = Some 404%Z
  ∧ err_message (createError 404 "Route not found") = "Route not found"
  ∧ trace (Router.handle r req) = []
  ∧ request (Router.handle r req) = req.
Proof.
  intros Hurl Hlookup. by rewrite (handle_no_route r req reqURL).
Qed.

(** C9. When the route found for the path carries parameters and the
    method is bound, [handle] sets [req.params] to them and
    [req.searchParams] to the parsed query before the [try] block runs:
    every call it makes receives the request so populated, a bound
    pre-hook is called first, and the handler bound to the method is
    called with it unless the pre-hook raised. *)
Theorem handle_populates_request
    (r : Router.t T) (req : Req.t) (reqURL : URL) (route : RouteRef)
    (params : Params) (method : string) (methodObj : Method) :
  URL_new (Req.url req) = Some reqURL →
  RadixRouter.lookup (Router.radixRouter r) (pathname reqURL)
    = Some (route, Some params) →
  Req.method req = Some method →
  methods (deref (Router.heap r) route) !! method = Some methodObj →
  let req' := populated req params reqURL in
  request (Router.handle r req) = req'
  ∧ (∀ callee rq, EvCall callee rq ∈ trace (Router.handle r req) → rq = req')
  ∧ (truthy (before methodObj) = true →
     is_function (before methodObj) = true →
     ∃ rest, trace (Router.handle r req) = EvCall (before methodObj) req' :: rest)
  ∧ (is_function (handler methodObj) = true →
     before_passes methodObj req' →
     EvCall (handler methodObj) req' ∈ trace (Router.handle r req)).
Proof.
  intros Hurl Hlookup Hmethod Hbound req'.
  rewrite (handle_found r req reqURL route (Some params) method) by done.
  rewrite Hbound. cbn [from_option]. fold (populated req params reqURL).
  fold req'. repeat split.
  - by destruct (Router.try_block _ _) as [evs [e|v]].
  - intros callee rq Hin. apply (try_block_calls (Some methodObj) req' callee).
    destruct (Router.try_block _ _) as [evs [e|v]]; cbn in *; [|done].
    apply elem_of_app in Hin as [Hin|Hin]; [done|].
    destruct (catch_block_cases r e) as [(data & Hcatch & _)|(raised & Hcatch & _)];
      rewrite Hcatch in Hin; cbn [fst] in Hin.
    + rewrite elem_of_cons, elem_of_nil in Hin. by destruct Hin.
    + by apply elem_of_nil in Hin.
  - intros Htruthy Hfun.
    destruct (try_block_before_first methodObj req' Htruthy Hfun) as [rest Hrest].
    destruct (Router.try_block _ _) as [evs [e|v]]; cbn in *; subst evs;
      by eexists.
  - intros Hfun Hpass.
    pose proof (try_block_handler_called methodObj req' Hfun Hpass) as Hin.
    destruct (Router.try_block _ _) as [evs [e|v]]; cbn in *; [|done].
    apply elem_of_app. by left.
Qed.

(** C10. A request whose [method] is [undefined] is answered like a path
    that matches nothing, whatever route its path matches: [handle] raises
    [createError(404, 'Route not found')] and calls nothing.  Conversely
    [handle] gets past its guard (its promise is fulfilled) only when the
    path has a route and the method is defined. *)
Theorem handle_undefined_method_raises_404
    (r : Router.t T) (req : Req.t) (reqURL : URL) :
  URL_new (Req.url req) = Some reqURL →
  Req.method req = None →
  (settled (Router.handle r req) = Rejects (createError 404 "Route not found")
   ∧ trace (Router.handle r req) = [])
  ∧ (∀ r' req' v,
       settled (Router.handle (T:=T) r' req') = Fulfills v →
       ∃ url' route params method,
         URL_new (Req.url req') = Some url'
         ∧ RadixRouter.lookup (Router.radixRouter r') (pathname url')
           = Some (route, params)
         ∧ Req.method req' = Some method).
Proof.
  intros Hurl Hmethod. split.
  - by rewrite (handle_no_method r req reqURL).
  - intros r' req' v. apply handle_dispatched.
Qed.

End Dispatch.

(** ** The class at work *)

(** C1. On a router with only [GET /a], the request [POST /a] (path
    matched, method unbound) ends in the [catch] block: [handle] sends
    status 500 and its promise is fulfilled, whereas [POST /b] (no match)
    makes it raise the 404 error and send nothing. *)
Theorem handle_unbound_method_sends_500 :
  Router.handle router_a (incoming (Some "POST") "/a")
  = {| trace := [EvSend 500 None];
       settled := Fulfills VUndefined;
       request := dispatched "POST" "/a" None |}
  ∧ Router.handle router_a (incoming (Some "POST") "/b")
    = route_not_found (incoming (Some "POST") "/b").
Proof. by vm_compute. Qed.

(** C2. With a pre-hook whose promise rejects, [handle] drops that promise
    and calls the handler all the same; its promise is fulfilled with the
    handler's value and no 500 is sent. *)
Theorem handle_does_not_await_before :
  Router.handle (router_admin fresh) (incoming (Some "GET") "/admin")
  = {| trace := [EvCall (rejecting "auth" denied) (dispatched "GET" "/admin" None);
                 EvFloating (Rejects denied);
                 EvCall (respond "admin" "secret") (dispatched "GET" "/admin" None)];
       settled := Fulfills (VStr "secret");
       request := dispatched "GET" "/admin" None |}.
Proof. by vm_compute. Qed.

(** C3. After [/a/:id] and then [/a/five] are registered for GET, the
    second registration has gone onto the Route of [/a/:id] (there is one
    route object and no static node for [five]), so that [GET /a/5] runs
    the handler given for [/a/five]. *)
Theorem handle_a_5_runs_handler_of_a_five :
  length (Router.heap router_a_five) = 1
  ∧ Router.radixRouter router_a_five = Router.radixRouter router_a_id
  ∧ Router.handle router_a_five (incoming (Some "GET") "/a/5")
    = {| trace := [EvCall (respond "five" "five")
                     (dispatched "GET" "/a/5" (Some [("id", "5")]))];
         settled := Fulfills (VStr "five");
         request := dispatched "GET" "/a/5" (Some [("id", "5")]) |}.
Proof. by vm_compute. Qed.

(** C4. In debug mode too, the rejection of an [async] pre-hook is not
    caught by [handle]: nothing is sent, the rejected promise is left
    floating, and the promise of [handle] is fulfilled by the handler. *)
Theorem handle_misses_rejection_of_before :
  let outcome :=
    Router.handle (router_admin fresh_debug) (incoming (Some "GET") "/admin") in
  (∀ statusCode data, EvSend statusCode data ∉ trace outcome)
  ∧ EvFloating (Rejects denied) ∈ trace outcome
  ∧ settled outcome = Fulfills (VStr "secret").
Proof.
  vm_compute. split; [|split; [|done]].
  - intros statusCode data Hin.
    repeat (apply elem_of_cons in Hin as [Hin|Hin]; [done|]).
    by apply elem_of_nil in Hin.
  - apply elem_of_cons. right. apply elem_of_cons. by left.
Qed.

(** C5 (counterexample). On a router without routes, [handle] answers
    [GET /missing] with no response at all, and its promise is not
    fulfilled: the error leaves [handle]. *)
Lemma handle_404_leaves_handle :
  ¬ ((∃ statusCode data,
        EvSend statusCode data
        ∈ trace (Router.handle fresh (incoming (Some "GET") "/missing")))
     ∨ (∃ v, settled (Router.handle fresh (incoming (Some "GET") "/missing"))
             = Fulfills v)).
Proof.
  vm_compute. intros [(statusCode & data & Hin) | (v & Hv)]; [|done].
  by apply elem_of_nil in Hin.
Qed.

(** C6. A registration with the pre-hook ['nope'] raises the assertion
    error only after the route object is created, inserted, and given the
    binding: the router it leaves resolves [/a], has the handler bound to
    GET, and dispatches [GET /a] to it. *)
Theorem route_bad_hook_leaves_binding :
  let result := Router.route (Some bad_hook) fresh in
  raised result = Some (MkAssertionError None)
  ∧ RadixRouter.lookup (Router.radixRouter (state_of result)) "/a"
    = Some (0, None)
  ∧ methods (deref (Router.heap (state_of result)) 0) !! "GET"
    = Some {| handler := respond "a" "ok"; before := VUndefined |}
  ∧ Router.handle (state_of result) (incoming (Some "GET") "/a")
    = {| trace := [EvCall (respond "a" "ok") (dispatched "GET" "/a" None)];
         settled := Fulfills (VStr "ok");
         request := dispatched "GET" "/a" None |}.
Proof. by vm_compute. Qed.

(** ** The path tree on its own *)

(** Inserted side by side, the static pattern takes the literal path and
    the parameter pattern takes the others. *)
Example tree_static_before_param :
  let tree :=
    PathTree.insert (PathTree.insert (PathTree.new VUndefined) 0 "/a/:id")
                    1 "/a/five" in
  PathTree.lookup tree "/a/five" = Some (1, None)
  ∧ PathTree.lookup tree "/a/5" = Some (0, Some [("id", "5")]).
Proof. by vm_compute. Qed.

(** A pattern read as a path: the parameter child of [/a/:id] matches the
    literal [five], which is what [route] sees when it probes the tree. *)
Example tree_probe_matches_param :
  PathTree.lookup (PathTree.insert (PathTree.new VUndefined) 0 "/a/:id")
                  "/a/five"
  = Some (0, Some [("id", "five")]).
Proof. by vm_compute. Qed.

Example tree_wildcard :
  let tree := PathTree.insert (PathTree.new VUndefined) 0 "/files/*" in
  PathTree.lookup tree "/files/a/b/c" = Some (0, None)
  ∧ PathTree.lookup tree "/other" = None
  ∧ PathTree.lookup tree "/files" = None.
Proof. by vm_compute. Qed.

Example tree_trailing_slash :
  PathTree.lookup (PathTree.insert (PathTree.new VUndefined) 0 "/a") "/a/"
  = Some (0, None)
  ∧ PathTree.lookup (PathTree.insert (PathTree.new (VBool true)) 0 "/a") "/a/"
    = None.
Proof. by vm_compute. Qed.

(** ** Instances of the general theorems *)

Lemma route_rejects_missing_argument_witness :
  let options :=
    Some {| Options.path := Some "";
            Options.method := Some "GET";
            Options.handler := respond "a" "ok";
            Options.before := VUndefined |} in
  (∀ o, options = Some o →
        truthy_string (Options.path o) = false
        ∨ truthy_string (Options.method o) = false
        ∨ truthy (Options.handler o) = false)
  ∧ (∃ message,
       Router.route options fresh = Raised fresh (MkAssertionError (Some message))).
Proof.
  intros options.
  assert (Hmissing : ∀ o, options = Some o →
            truthy_string (Options.path o) = false
            ∨ truthy_string (Options.method o) = false
            ∨ truthy (Options.handler o) = false).
  { intros o [= <-]. left. reflexivity. }
  split; [exact Hmissing|].
  exact (proj1 (route_rejects_missing_argument fresh options Hmissing)).
Defined.

Lemma route_reuses_registered_route_witness :
  RadixRouter.lookup (Router.radixRouter router_users) "/users/:id"
  = Some (0, Some [("id", ":id")])
  ∧ ∃ r' obj',
      Router.route (Some post_users) router_users = Ok r' tt
      ∧ Router.radixRouter r' = Router.radixRouter router_users
      ∧ length (Router.heap r') = length (Router.heap router_users)
      ∧ Router.heap r' !! 0 = Some obj'
      ∧ path obj' = "/users/:id"
      ∧ methods obj' !! "POST"
        = Some {| handler := respond "createUser" "created";
                  before := VUndefined |}
      ∧ (∀ k, k ≠ "POST" →
              methods obj' !! k
              = methods (deref (Router.heap router_users) 0) !! k)
      ∧ (∀ ref', ref' ≠ 0 →
              Router.heap r' !! ref' = Router.heap router_users !! ref').
Proof.
  assert (Hlookup : RadixRouter.lookup (Router.radixRouter router_users)
                      "/users/:id" = Some (0, Some [("id", ":id")]))
    by reflexivity.
  assert (Hobj : Router.heap router_users !! 0
                 = Some (deref (Router.heap router_users) 0))
    by reflexivity.
  assert (Hvalid : valid_options post_users "/users/:id" "post").
  { repeat split; try reflexivity; discriminate. }
  split; [exact Hlookup|].
  exact (route_reuses_registered_route router_users post_users
           "/users/:id" "post" 0 (Some [("id", ":id")])
           (deref (Router.heap router_users) 0) Hvalid Hlookup Hobj).
Defined.

Lemma handle_unmatched_path_raises_404_witness :
  RadixRouter.lookup (Router.radixRouter router_users) "/missing" = None
  ∧ settled (Router.handle router_users (incoming (Some "GET") "/missing"))
    = Rejects (createError 404 "Route not found")
  ∧ trace (Router.handle router_users (incoming (Some "GET") "/missing")) = [].
Proof.
  assert (Hlookup : RadixRouter.lookup (Router.radixRouter router_users)
                      "/missing" = None) by reflexivity.
  assert (Hurl : URL_new (Req.url (incoming (Some "GET") "/missing"))
                 = Some {| pathname := "/missing"; searchParams := [] |})
    by reflexivity.
  split; [exact Hlookup|].
  destruct (handle_unmatched_path_raises_404 router_users
              (incoming (Some "GET") "/missing")
              {| pathname := "/missing"; searchParams := [] |}
              Hurl Hlookup) as (Hsettled & _ & _ & Htrace & _).
  by split.
Defined.

Lemma handle_populates_request_witness :
  RadixRouter.lookup (Router.radixRouter router_users) "/users/42"
  = Some (0, Some [("id", "42")])
  ∧ request (Router.handle router_users (incoming (Some "GET") "/users/42"))
    = dispatched "GET" "/users/42" (Some [("id", "42")])
  ∧ EvCall (respond "getUser" "user")
           (dispatched "GET" "/users/42" (Some [("id", "42")]))
    ∈ trace (Router.handle router_users (incoming (Some "GET") "/users/42")).
Proof.
  assert (Hlookup : RadixRouter.lookup (Router.radixRouter router_users)
                      "/users/42" = Some (0, Some [("id", "42")]))
    by reflexivity.
  assert (Hbound : methods (deref (Router.heap router_users) 0) !! "GET"
                   = Some {| handler := respond "getUser" "user";
                             before := VUndefined |})
    by reflexivity.
  assert (Hurl : URL_new (Req.url (incoming (Some "GET") "/users/42"))
                 = Some {| pathname := "/users/42"; searchParams := [] |})
    by reflexivity.
  split; [exact Hlookup|].
  destruct (handle_populates_request router_users
              (incoming (Some "GET") "/users/42")
              {| pathname := "/users/42"; searchParams := [] |}
              0 [("id", "42")] "GET"
              {| handler := respond "getUser" "user"; before := VUndefined |}
              Hurl Hlookup eq_refl Hbound)
    as (Hrequest & _ & _ & Hhandler).
  split; [exact Hrequest|].
  apply Hhandler; [reflexivity|]. left. reflexivity.
Defined.

Lemma handle_undefined_method_raises_404_witness :
  RadixRouter.lookup (Router.radixRouter router_users) "/users/42"
  = Some (0, Some [("id", "42")])
  ∧ Req.method (incoming None "/users/42") = None
  ∧ settled (Router.handle router_users (incoming None "/users/42"))
    = Rejects (createError 404 "Route not found")
  ∧ trace (Router.handle router_users (incoming None "/users/42")) = [].
Proof.
  assert (Hurl : URL_new (Req.url (incoming None "/users/42"))
                 = Some {| pathname := "/users/42"; searchParams := [] |})
    by reflexivity.
  split; [reflexivity|]. split; [reflexivity|].
  exact (proj1 (handle_undefined_method_raises_404 router_users
                  (incoming None "/users/42")
                  {| pathname := "/users/42"; searchParams := [] |}
                  Hurl eq_refl)).
Defined.

(** * Further properties *)

(** ** Registration *)

Section MoreRegistration.
Context {T : Type} {api : RadixRouter.API T}.

Lemma upper_ascii_idemp (c : ascii) : upper_ascii (upper_ascii c) = upper_ascii c.
Proof. by destruct c as [[] [] [] [] [] [] [] []]. Qed.

Lemma toUpperCase_idemp (s : string) :
  toUpperCase (toUpperCase s) = toUpperCase s.
Proof.
  induction s as [|c s IH]; [done|].
  cbn [toUpperCase]. by rewrite upper_ascii_idemp, IH.
Qed.

Lemma toUpperCase_truthy (s : string) :
  truthy_string (Some (toUpperCase s)) = truthy_string (Some s).
Proof. by destruct s. Qed.

(** The opening assertions of [route]: the first that fails raises, with
    the router untouched. *)
Lemma route_argument_error (r : Router.t T) (options : option Options.t)
    (message : string) :
  argument_error options = Some message →
  Router.route options r = Raised r (MkAssertionError (Some message)).
Proof.
  unfold argument_error, Router.route, mbind, Action_bind.
  destruct options as [o|]; [|by intros [= <-]].
  cbn [assert_object mret Action_ret]. unfold assert_string.
  destruct (Options.path o) as [p|]; cbn [truthy_string negb];
    [|by intros [= <-]].
  destruct (negb (String.eqb p "")); cbn [negb]; [|by intros [= <-]].
  cbn [mret Action_ret].
  destruct (Options.method o) as [m|]; cbn [truthy_string negb];
    [|by intros [= <-]].
  destruct (negb (String.eqb m "")); cbn [negb]; [|by intros [= <-]].
  cbn [mret Action_ret]. unfold assert.
  destruct (truthy (Options.handler o)); cbn [negb]; [done|by intros [= <-]].
Qed.

Lemma argument_error_None (options : option Options.t) :
  argument_error options = None →
  ∃ o p m,
    options = Some o
    ∧ Options.path o = Some p ∧ p ≠ ""
    ∧ Options.method o = Some m ∧ m ≠ ""
    ∧ truthy (Options.handler o) = true.
Proof.
  unfold argument_error. destruct options as [o|]; [|done].
  destruct (Options.path o) as [p|] eqn:Hp; cbn [truthy_string negb]; [|done].
  destruct (String.eqb p "") eqn:Hpne; cbn [negb]; [done|].
  destruct (Options.method o) as [m|] eqn:Hm; cbn [truthy_string negb]; [|done].
  destruct (String.eqb m "") eqn:Hmne; cbn [negb]; [done|].
  destruct (truthy (Options.handler o)) eqn:Hh; cbn [negb]; [|done].
  intros _. exists o, p, m. apply String.eqb_neq in Hpne, Hmne. by repeat split.
Qed.

(** X1. A falsy [before] (such as [0], the empty string, [null] or [false])
    is taken as no pre-hook: the call does exactly what it does without
    the property, and raises nothing on its account. *)
Theorem route_falsy_before_is_none (r : Router.t T) (o : Options.t) :
  truthy (Options.before o) = false →
  Router.route (Some o) r = Router.route (Some (without_before o)) r.
Proof.
  intros Hfalsy.
  destruct (argument_error (Some o)) as [message|] eqn:Herror.
  - rewrite (route_argument_error r (Some o) message) by done.
    by rewrite (route_argument_error r (Some (without_before o)) message).
  - apply argument_error_None in Herror
      as (o' & p & m & [= <-] & Hp & Hpne & Hm & Hmne & Hh).
    rewrite (route_checked r o p m) by done.
    rewrite (route_checked r (without_before o) p m) by done.
    cbn [without_before Options.before Options.handler truthy].
    by rewrite Hfalsy.
Qed.

(** X2. The method of a registration is case-insensitive: registering
    under [m] and under [m.toUpperCase()] are the same call. *)
Theorem route_method_case_insensitive
    (r : Router.t T) (o : Options.t) (m : string) :
  Options.method o = Some m →
  Router.route (Some o) r = Router.route (Some (with_method o (toUpperCase m))) r.
Proof.
  intros Hm.
  assert (Herrors : argument_error (Some (with_method o (toUpperCase m)))
                    = argument_error (Some o)).
  { unfold argument_error, with_method. cbn [Options.path Options.method
      Options.handler]. by rewrite Hm, toUpperCase_truthy. }
  destruct (argument_error (Some o)) as [message|] eqn:Herror.
  - rewrite (route_argument_error r (Some o) message) by done.
    by rewrite (route_argument_error r _ message).
  - apply argument_error_None in Herror
      as (o' & p & m' & [= <-] & Hp & Hpne & Hm' & Hmne & Hh).
    assert (m' = m) as -> by congruence.
    rewrite (route_checked r o p m) by done.
    rewrite (route_checked r (with_method o (toUpperCase m)) p (toUpperCase m));
      [|done|done|done| |done].
    + cbn [with_method Options.before Options.handler].
      by rewrite toUpperCase_idemp.
    + intros Hempty. apply Hmne. by destruct m.
Qed.

Lemma methods_set_write (r : Router.t T) (ref : RouteRef) (key : string)
    (b : Method) :
  Router.methods_set ref key b r = Ok (write ref key b r) tt.
Proof. done. Qed.

(** Setting [before] on the method object just stored amounts to storing
    the finished object. *)
Lemma set_before_after_set (r : Router.t T) (ref : RouteRef) (key : string)
    (h v : JsValue) :
  Router.set_before ref key v
    (write ref key {| handler := h; before := VUndefined |} r)
  = Ok (write ref key {| handler := h; before := v |} r) tt.
Proof.
  unfold Router.set_before, Router.update_route, modify, write.
  cbn [Router.heap Router.radixRouter Router.debug]. do 2 f_equal.
  destruct (decide (ref < length (Router.heap r))) as [Hlt|Hge].
  - rewrite deref_insert by done. cbn [path methods].
    by rewrite list_insert_insert_eq, alter_insert_eq.
  - by rewrite !list_insert_ge by (rewrite ?list_insert_ge; lia).
Qed.

(** What a call of [route] whose arguments pass does: it stores the method
    object, and raises afterwards if the pre-hook is not a function. *)
Lemma route_state (r : Router.t T) (o : Options.t) (p m : string) :
  Options.path o = Some p → p ≠ "" →
  Options.method o = Some m → m ≠ "" →
  truthy (Options.handler o) = true →
  Router.route (Some o) r =
    let stored :=
      write (probe r p).1 (toUpperCase m)
        {| handler := Options.handler o; before := VUndefined |}
        (probe r p).2 in
    if truthy (Options.before o) then
      if is_function (Options.before o) then
        Ok (write (probe r p).1 (toUpperCase m) (binding_of o) (probe r p).2) tt
      else Raised stored (MkAssertionError None)
    else Ok stored tt.
Proof.
  intros Hp Hpne Hm Hmne Hh. rewrite (route_checked r o p m) by done.
  unfold mbind, Action_bind, gets, probe, binding_of.
  destruct (RadixRouter.lookup _ _) as [[ref ps]|];
    cbn [mret Action_ret Router.new_route Router.radix_insert modify fst snd];
    rewrite methods_set_write;
    (destruct (truthy (Options.before o)); [|done]);
    (destruct (is_function (Options.before o)); [|done]);
    cbn [assert mret Action_ret]; by rewrite set_before_after_set.
Qed.

(** Either the arguments fail and the router is untouched, or one method
    object is stored under the upper-case method. *)
Lemma route_state_cases (r : Router.t T) (options : option Options.t) :
  state_of (Router.route options r) = r
  ∨ ∃ o p m b,
      options = Some o ∧ Options.method o = Some m ∧ handler b = Options.handler o
      ∧ state_of (Router.route options r)
        = write (probe r p).1 (toUpperCase m) b (probe r p).2.
Proof.
  destruct (argument_error options) as [message|] eqn:Herror.
  - left. by rewrite (route_argument_error r options message).
  - right. apply argument_error_None in Herror
      as (o & p & m & -> & Hp & Hpne & Hm & Hmne & Hh).
    rewrite (route_state r o p m) by done. cbn zeta.
    destruct (truthy (Options.before o));
      [destruct (is_function (Options.before o))|];
      eexists o, p, m, _; by repeat split.
Qed.

(** A route object after a write: the one written has the method stored,
    the others are as they were. *)
Lemma write_lookup (r : Router.t T) (ref0 : RouteRef) (key : string)
    (b : Method) (ref : RouteRef) (obj : Route) :
  Router.heap r !! ref = Some obj →
  ∃ obj',
    Router.heap (write ref0 key b r) !! ref = Some obj'
    ∧ path obj' = path obj
    ∧ ((ref ≠ ref0 ∧ obj' = obj)
       ∨ (ref = ref0 ∧ methods obj' = <[key := b]> (methods obj))).
Proof.
  intros Hobj. unfold write. cbn [Router.heap].
  destruct (decide (ref = ref0)) as [->|Hne].
  - rewrite list_lookup_insert_eq by by eapply lookup_lt_Some.
    rewrite (deref_Some _ _ obj) by done. eexists. by eauto.
  - rewrite list_lookup_insert_ne by done. eexists. by eauto.
Qed.

Lemma probe_heap (r : Router.t T) (p : string) :
  Router.debug (probe r p).2 = Router.debug r
  ∧ (Router.heap (probe r p).2 = Router.heap r
     ∨ Router.heap (probe r p).2
       = Router.heap r ++ [ {| path := p; methods := ∅ |} ]
       ∧ (probe r p).1 = length (Router.heap r)).
Proof.
  unfold probe. destruct (RadixRouter.lookup _ _) as [[ref ps]|]; cbn; eauto.
Qed.

(** X3. A call of [route], whether it returns or raises, takes nothing
    away: each route object is still there with its path; each of its
    bindings is as it was, except the one for the method of the call,
    which is then bound to the handler of the call.  At most one route
    object is added, and [debug] is as it was. *)
Theorem route_keeps_what_is_registered
    (r : Router.t T) (options : option Options.t)
    (ref : RouteRef) (obj : Route) :
  Router.heap r !! ref = Some obj →
  let r' := state_of (Router.route options r) in
  Router.debug r' = Router.debug r
  ∧ length (Router.heap r) ≤ length (Router.heap r') ≤ S (length (Router.heap r))
  ∧ ∃ obj',
      Router.heap r' !! ref = Some obj'
      ∧ path obj' = path obj
      ∧ ∀ k, methods obj' !! k = methods obj !! k
             ∨ ∃ o m b,
                 options = Some o ∧ Options.method o = Some m
                 ∧ k = toUpperCase m
                 ∧ methods obj' !! k = Some b
                 ∧ handler b = Options.handler o.
Proof.
  intros Hobj r'. subst r'.
  destruct (route_state_cases r options)
    as [-> | (o & p & m & b & -> & Hm & Hb & ->)].
  { repeat split; [lia..|]. exists obj. by eauto. }
  destruct (probe_heap r p) as [Hdebug Hheap].
  assert (Hobj1 : Router.heap (probe r p).2 !! ref = Some obj).
  { destruct Hheap as [-> | [-> _]]; [done|by apply lookup_app_l_Some]. }
  split; [done|]. split.
  { unfold write. cbn [Router.heap]. rewrite length_insert.
    destruct Hheap as [-> | [-> _]]; [lia|]. rewrite length_app. cbn. lia. }
  destruct (write_lookup (probe r p).2 (probe r p).1 (toUpperCase m) b ref obj
              Hobj1) as (obj' & Hobj' & Hpath & Hcases).
  exists obj'. split; [done|]. split; [done|]. intros k.
  destruct Hcases as [[_ ->] | [_ Hmethods]]; [by left|].
  rewrite Hmethods. destruct (decide (k = toUpperCase m)) as [->|Hne].
  - right. exists o, m, b. by rewrite lookup_insert_eq.
  - left. by rewrite lookup_insert_ne.
Qed.

(** A write under an upper-case key keeps the keys in upper case. *)
Lemma upper_keys_write (r : Router.t T) (ref0 : RouteRef) (m : string)
    (b : Method) :
  upper_keys (Router.heap r) →
  upper_keys (Router.heap (write ref0 (toUpperCase m) b r)).
Proof.
  intros Hupper ref obj' k. unfold write. cbn [Router.heap].
  rewrite list_lookup_insert. case_decide as Hcase; [|by apply Hupper].
  destruct Hcase as [-> Hlt]. intros [= <-]. cbn [methods].
  destruct (lookup_lt_is_Some_2 _ _ Hlt) as [obj Hobj].
  rewrite (deref_Some _ _ obj) by done.
  rewrite lookup_insert. case_decide as Hk; [subst k|by eapply Hupper].
  intros _. apply toUpperCase_idemp.
Qed.

Lemma upper_keys_route (r : Router.t T) (options : option Options.t) :
  upper_keys (Router.heap r) →
  upper_keys (Router.heap (state_of (Router.route options r))).
Proof.
  intros Hupper.
  destruct (route_state_cases r options)
    as [-> | (o & p & m & b & -> & Hm & Hb & ->)]; [done|].
  apply upper_keys_write.
  destruct (probe_heap r p) as [_ [-> | [-> _]]]; [done|].
  intros ref obj k [Hobj | [_ Hobj]]%lookup_app_Some; [by eapply Hupper|].
  destruct (ref - length (Router.heap r)); [|done].
  injection Hobj as <-. cbn [methods]. rewrite lookup_empty. by intros [? ?].
Qed.

Lemma upper_keys_registrations (calls : list (option Options.t))
    (r : Router.t T) :
  upper_keys (Router.heap r) →
  upper_keys (Router.heap (registrations calls r)).
Proof.
  revert r. induction calls as [|options rest IH]; intros r Hupper; [done|].
  cbn [registrations]. by apply IH, upper_keys_route.
Qed.

Lemma debug_registrations (calls : list (option Options.t)) (r : Router.t T) :
  Router.debug (registrations calls r) = Router.debug r.
Proof.
  revert r. induction calls as [|options rest IH]; intros r; [done|].
  cbn [registrations]. rewrite IH.
  destruct (route_state_cases r options)
    as [-> | (o & p & m & b & -> & Hm & Hb & ->)]; [done|].
  unfold write. cbn [Router.debug]. by destruct (probe_heap r p) as [-> _].
Qed.

(** X4. In a router built by calls of [route], every method that a route
    object binds is spelled in upper case, however the calls spelled it. *)
Theorem registered_methods_are_upper_case
    (config : option Config.t) (calls : list (option Options.t))
    (ref : RouteRef) (obj : Route) (k : string) :
  Router.heap (registrations calls (Router.constructor (T:=T) config)) !! ref
    = Some obj →
  is_Some (methods obj !! k) →
  toUpperCase k = k.
Proof.
  apply (upper_keys_registrations calls (Router.constructor config)).
  by intros ref' obj' k' Hnil.
Qed.

(** X5. Registering again a binding that is already there changes
    nothing: when the pattern resolves to a Route that binds the method to
    the very handler and pre-hook of the call, the call returns and leaves
    the router as it was. *)
Theorem route_again_changes_nothing
    (r : Router.t T) (o : Options.t) (p m : string)
    (ref : RouteRef) (ps : option Params) (obj : Route) :
  valid_options o p m →
  RadixRouter.lookup (Router.radixRouter r) p = Some (ref, ps) →
  Router.heap r !! ref = Some obj →
  methods obj !! toUpperCase m = Some (binding_of o) →
  Router.route (Some o) r = Ok r tt.
Proof.
  intros Hvalid Hlookup Hobj Hbound.
  rewrite (route_found_run r o p m ref ps obj) by done.
  rewrite insert_id by done.
  replace {| path := path obj; methods := methods obj |} with obj
    by by destruct obj.
  rewrite list_insert_id by done. by destruct r.
Qed.

(** X6. Two registrations that go to existing Routes commute, unless they
    bind the same method of the same Route (where the later one wins). *)
Theorem route_commutes
    (r : Router.t T) (o1 o2 : Options.t) (p1 m1 p2 m2 : string)
    (ref1 ref2 : RouteRef) (ps1 ps2 : option Params) (obj1 obj2 : Route) :
  valid_options o1 p1 m1 →
  valid_options o2 p2 m2 →
  RadixRouter.lookup (Router.radixRouter r) p1 = Some (ref1, ps1) →
  RadixRouter.lookup (Router.radixRouter r) p2 = Some (ref2, ps2) →
  Router.heap r !! ref1 = Some obj1 →
  Router.heap r !! ref2 = Some obj2 →
  ref1 ≠ ref2 ∨ toUpperCase m1 ≠ toUpperCase m2 →
  registrations [Some o1; Some o2] r = registrations [Some o2; Some o1] r.
Proof.
  intros Hvalid1 Hvalid2 Hlookup1 Hlookup2 Hobj1 Hobj2 Hdistinct.
  assert (Hlt1 : ref1 < length (Router.heap r)) by by eapply lookup_lt_Some.
  assert (Hlt2 : ref2 < length (Router.heap r)) by by eapply lookup_lt_Some.
  cbn [registrations].
  rewrite (route_found_run r o1 p1 m1 ref1 ps1 obj1) by done.
  rewrite (route_found_run r o2 p2 m2 ref2 ps2 obj2) by done.
  cbn [state_of].
  destruct (decide (ref1 = ref2)) as [<-|Hne].
  - assert (obj2 = obj1) as -> by congruence.
    destruct Hdistinct as [?|Hkeys]; [done|].
    erewrite (route_found_run _ o2 p2 m2 ref1 ps2);
      [|done|done|cbn [Router.heap]; by apply list_lookup_insert_eq].
    erewrite (route_found_run _ o1 p1 m1 ref1 ps1);
      [|done|done|cbn [Router.heap]; by apply list_lookup_insert_eq].
    cbn [state_of Router.heap Router.radixRouter Router.debug path methods].
    rewrite !list_insert_insert_eq. do 3 f_equal.
    by apply insert_insert_ne.
  - erewrite (route_found_run _ o2 p2 m2 ref2 ps2 obj2);
      [|done|done|cbn [Router.heap]; by rewrite list_lookup_insert_ne].
    erewrite (route_found_run _ o1 p1 m1 ref1 ps1 obj1);
      [|done|done|cbn [Router.heap]; by rewrite list_lookup_insert_ne].
    cbn [state_of Router.heap Router.radixRouter Router.debug].
    f_equal. by apply list_insert_insert_ne.
Qed.

(** X7. Each verb registers under its own upper-case method: after
    [router.VERB(path, fn1, fn2)] the Route of the pattern binds that
    method to the handler [fn1] alone, or to the handler [fn2] with [fn1]
    as pre-hook. *)
Theorem verbs_bind_their_method
    (r : Router.t T) (name : string)
    (verb : option string → JsValue → JsValue → Action (Router.t T) ())
    (p : string) (fn1 fn2 : JsValue) :
  (name, verb) ∈ verbs →
  p ≠ "" →
  truthy fn1 = true →
  (truthy fn2 = true → is_function fn1 = true) →
  (∀ ref ps, RadixRouter.lookup (Router.radixRouter r) p = Some (ref, ps) →
             ref < length (Router.heap r)) →
  ∃ r',
    verb (Some p) fn1 fn2 r = Ok r' tt
    ∧ methods (deref (Router.heap r') (probe r p).1) !! name
      = Some (if truthy fn2
              then {| handler := fn2; before := fn1 |}
              else {| handler := fn1; before := VUndefined |}).
Proof.
  intros Hverb Hpne Hfn1 Hfn2 Halloc.
  assert (Hprobe : (probe r p).1 < length (Router.heap (probe r p).2)).
  { unfold probe.
    destruct (RadixRouter.lookup _ _) as [[ref ps]|] eqn:Hlookup; cbn.
    - by eapply Halloc.
    - rewrite length_app. cbn. lia. }
  assert (Hrun : ∀ method, method ≠ "" → toUpperCase method = method →
    ∃ r',
      (options ← routeOptionsHelper (Some p) method fn1 fn2;
       Router.route (Some options)) r = Ok r' tt
      ∧ methods (deref (Router.heap r') (probe r p).1) !! method
        = Some (if truthy fn2
                then {| handler := fn2; before := fn1 |}
                else {| handler := fn1; before := VUndefined |})).
  { intros method Hmethod Hupper.
    unfold routeOptionsHelper, mbind, Action_bind, assert. rewrite Hfn1.
    cbn [mret Action_ret]. destruct (truthy fn2) eqn:Hfn2'; cbn [mret Action_ret].
    - rewrite (route_state r _ p method) by done. cbn zeta.
      cbn [Options.before Options.handler]. rewrite Hfn1, (Hfn2 eq_refl).
      eexists. split; [reflexivity|]. unfold write, binding_of.
      cbn [Router.heap Options.before Options.handler].
      rewrite deref_insert by done. cbn [methods].
      by rewrite Hupper, lookup_insert_eq, Hfn1.
    - rewrite (route_state r _ p method) by done. cbn zeta.
      cbn [Options.before Options.handler truthy].
      eexists. split; [reflexivity|]. unfold write.
      cbn [Router.heap]. rewrite deref_insert by done. cbn [methods].
      by rewrite Hupper, lookup_insert_eq. }
  unfold verbs in Hverb.
  repeat (apply elem_of_cons in Hverb as [[= -> ->]|Hverb];
          [by apply Hrun|]).
  by apply elem_of_nil in Hverb.
Qed.

End MoreRegistration.

(** ** Dispatch *)

Section MoreDispatch.
Context {engine : Engine} {T : Type} {api : RadixRouter.API T}.

(** [handle] on a request that has a route and a binding. *)
Lemma handle_bound (r : Router.t T) (req : Req.t) (reqURL : URL)
    (route : RouteRef) (route_params : option Params) (methodObj : Method) :
  bound_to r req reqURL route route_params methodObj →
  let req' := handed_over req route_params reqURL in
  let attempt := Router.try_block (Some methodObj) req' in
  Router.handle r req =
    match attempt.2 with
    | inr v => {| trace := attempt.1; settled := Fulfills v; request := req' |}
    | inl e => {| trace := attempt.1 ++ (Router.catch_block r e).1;
                  settled := (Router.catch_block r e).2;
                  request := req' |}
    end.
Proof.
  intros (Hurl & Hlookup & method & Hmethod & Hbound). cbn zeta.
  rewrite (handle_found r req reqURL route route_params method) by done.
  cbn zeta. by rewrite Hbound.
Qed.

(** The [try] block sends nothing itself. *)
Lemma try_block_sends_nothing (methodObj : option Method) (req : Req.t)
    (statusCode : Z) (data : option string) :
  EvSend statusCode data ∉ (Router.try_block methodObj req).1.
Proof.
  unfold Router.try_block, invoke.
  destruct methodObj as [[h b]|]; cbn; [|by intros ?%elem_of_nil].
  destruct (truthy b), b, h; cbn;
    repeat match goal with
    | |- context [match ?c ?x with _ => _ end] => destruct (c x); cbn
    | |- context [match ?p with Fulfills _ => _ | Rejects _ => _ end] =>
        destruct p; cbn
    end;
    rewrite ?elem_of_app, ?elem_of_cons, ?elem_of_nil;
    intros Hin; decompose [or] Hin; done.
Qed.

(** With a handler that is a function and a pre-hook that lets it run,
    the [try] block ends with the call of the handler and completes as the
    handler does, a promise being awaited. *)
Lemma try_block_runs_handler (methodObj : Method) (req : Req.t)
    (hname : string) (hbody : Req.t → Completion JsValue) :
  handler methodObj = VFun hname hbody →
  before_passes methodObj req →
  ∃ evs,
    Router.try_block (Some methodObj) req
    = (evs ++ [EvCall (handler methodObj) req],
       match hbody req with
       | Throws e => inl e
       | Returns v => inr v
       | ReturnsPromise (Fulfills v) => inr v
       | ReturnsPromise (Rejects e) => inl e
       end).
Proof.
  unfold Router.try_block, invoke, before_passes.
  destruct methodObj as [h b]; cbn. intros -> Hpass.
  destruct Hpass as [-> | (name & body & -> & Hbody)]; cbn.
  - exists []. by destruct (hbody req) as [e|v|[v|e]].
  - destruct (body req) as [e'|v'|p] eqn:Hb; cbn.
    + by destruct (Hbody e').
    + eexists [_]. by destruct (hbody req) as [e|v|[v|e]].
    + eexists [_; _]. by destruct (hbody req) as [e|v|[v|e]].
Qed.

(** X8. [handle] gives back what the handler gives: when the handler
    returns a value, or a promise that is fulfilled with it, the promise of
    [handle] is fulfilled with that value, the call of the handler is the
    last thing [handle] did, and [handle] has sent nothing.  What the
    pre-hook returned plays no part. *)
Theorem handle_returns_handler_value
    (r : Router.t T) (req : Req.t) (reqURL : URL) (route : RouteRef)
    (route_params : option Params) (methodObj : Method)
    (hname : string) (hbody : Req.t → Completion JsValue) (v : JsValue) :
  bound_to r req reqURL route route_params methodObj →
  let req' := handed_over req route_params reqURL in
  handler methodObj = VFun hname hbody →
  before_passes methodObj req' →
  hbody req' = Returns v ∨ hbody req' = ReturnsPromise (Fulfills v) →
  settled (Router.handle r req) = Fulfills v
  ∧ (∃ evs, trace (Router.handle r req)
            = evs ++ [EvCall (handler methodObj) req'])
  ∧ ∀ statusCode data, EvSend statusCode data ∉ trace (Router.handle r req).
Proof.
  intros Hbound req' Hhandler Hpass Hreturns.
  rewrite (handle_bound r req reqURL route route_params methodObj) by done.
  cbn zeta. fold req'.
  pose proof (try_block_sends_nothing (Some methodObj) req') as Hnothing.
  destruct (try_block_runs_handler methodObj req' hname hbody Hhandler Hpass)
    as [evs Htry].
  rewrite Htry in *. cbn [fst snd] in *.
  destruct Hreturns as [Hreturns | Hreturns]; rewrite Hreturns;
    cbn [trace settled]; by eauto.
Qed.



Lemma template_error (e : ErrorObj) :
  Router.template (VError e) = inr (diagnostic e).
Proof. done. Qed.




(** Without a function as handler the [try] block fails, having called
    at most the pre-hook. *)
Lemma try_block_handler_not_a_function (methodObj : Method) (req : Req.t) :
  is_function (handler methodObj) = false →
  before_passes methodObj req →
  ∃ evs (e : ErrorObj),
    Router.try_block (Some methodObj) req = (evs, inl (VError e))
    ∧ ∀ callee rq, EvCall callee rq ∈ evs → callee = before methodObj.
Proof.
  unfold Router.try_block, invoke, before_passes.
  destruct methodObj as [h b]. cbn [handler before]. intros Hfun Hpass.
  destruct Hpass as [-> | (name & body & -> & Hbody)]; cbn.
  - destruct h; try done; eexists [], _; (split; [done|]);
      by intros ? ? ?%elem_of_nil.
  - destruct (body req) as [e'|v'|p] eqn:Hb; cbn.
    + by destruct (Hbody e').
    + destruct h; try done; eexists [_], _; (split; [done|]);
        intros callee rq Hin; apply list_elem_of_singleton in Hin;
        by injection Hin.
    + destruct h; try done; eexists [_; _], _; (split; [done|]);
        intros callee rq Hin;
        (apply elem_of_cons in Hin as [Hin|Hin]; [by injection Hin|]);
        by apply list_elem_of_singleton in Hin.
Qed.

(** X11. [route] takes any truthy value as handler; one that is not a
    function is found out at dispatch: nothing is called in its place,
    status 500 is sent and the promise of [handle] is fulfilled with
    [undefined]. *)
Theorem handle_handler_not_a_function
    (r : Router.t T) (req : Req.t) (reqURL : URL) (route : RouteRef)
    (route_params : option Params) (methodObj : Method) :
  bound_to r req reqURL route route_params methodObj →
  let req' := handed_over req route_params reqURL in
  is_function (handler methodObj) = false →
  before_passes methodObj req' →
  (∃ evs data,
     trace (Router.handle r req) = evs ++ [EvSend 500 data]
     ∧ ∀ callee rq, EvCall callee rq ∈ evs → callee = before methodObj)
  ∧ settled (Router.handle r req) = Fulfills VUndefined.
Proof.
  intros Hbound req' Hfun Hpass.
  rewrite (handle_bound r req reqURL route route_params methodObj) by done.
  cbn zeta. fold req'.
  destruct (try_block_handler_not_a_function methodObj req' Hfun Hpass)
    as (evs & e & -> & Hcalls).
  cbn [fst snd].
  destruct (catch_block_body r e) as (data & -> & _).
  cbn [fst snd trace settled]. split; [|done].
  exists evs, data. by split.
Qed.

(** X12. Once past the guard, [handle] always sets [req.searchParams],
    and sets [req.params] only if the route found has parameters: with a
    route without parameters the request keeps the [params] it came with.
    Every call [handle] makes receives the request so prepared. *)
Theorem handle_hands_over_request
    (r : Router.t T) (req : Req.t) (reqURL : URL) (route : RouteRef)
    (route_params : option Params) (method : string) :
  URL_new (Req.url req) = Some reqURL →
  RadixRouter.lookup (Router.radixRouter r) (pathname reqURL)
    = Some (route, route_params) →
  Req.method req = Some method →
  request (Router.handle r req) = handed_over req route_params reqURL
  ∧ (∀ callee rq,
       EvCall callee rq ∈ trace (Router.handle r req) →
       rq = handed_over req route_params reqURL)
  ∧ Req.searchParams (request (Router.handle r req))
    = Some (searchParams reqURL)
  ∧ (route_params = None →
     Req.params (request (Router.handle r req)) = Req.params req).
Proof.
  intros Hurl Hlookup Hmethod.
  rewrite (handle_found r req reqURL route route_params method) by done.
  cbn zeta. fold (handed_over req route_params reqURL).
  pose proof (try_block_calls
                (methods (deref (Router.heap r) route) !! method)
                (handed_over req route_params reqURL)) as Hcalls.
  destruct (Router.try_block _ _) as [evs [e|v]]; cbn [fst snd] in *;
    cbn [request trace]; (split; [done|]); (split; [|split; [done|by intros ->]]).
  - intros callee rq [Hin|Hin]%elem_of_app; [by eapply Hcalls|].
    destruct (catch_block_cases r e)
      as [(data & Hcatch & _)|(raised & Hcatch & _)];
      rewrite Hcatch in Hin; cbn [fst] in Hin.
    + by apply list_elem_of_singleton in Hin.
    + by apply elem_of_nil in Hin.
  - intros callee rq Hin. by eapply Hcalls.
Qed.



(** X14. [handle] itself sends at most one response, with status 500, as
    the last thing it does, and then its promise is fulfilled with
    [undefined]; it never sends a 404. *)
Theorem handle_sends_only_500
    (r : Router.t T) (req : Req.t) (statusCode : Z) (data : option string) :
  EvSend statusCode data ∈ trace (Router.handle r req) →
  statusCode = 500%Z
  ∧ settled (Router.handle r req) = Fulfills VUndefined
  ∧ ∃ evs,
      trace (Router.handle r req) = evs ++ [EvSend 500 data]
      ∧ ∀ statusCode' data', EvSend statusCode' data' ∉ evs.
Proof.
  unfold Router.handle.
  destruct (URL_new (Req.url req)) as [reqURL|]; [|by intros ?%elem_of_nil].
  destruct (RadixRouter.lookup _ _) as [[route route_params]|];
    [|destruct (Req.method req); by intros ?%elem_of_nil].
  destruct (Req.method req) as [method|]; [|by intros ?%elem_of_nil].
  match goal with
  | |- context [Router.try_block ?m ?q] =>
      pose proof (try_block_sends_nothing m q) as Hnothing;
      destruct (Router.try_block m q) as [evs [e|v]]
  end; cbn [fst snd trace settled] in *.
  - destruct (catch_block_cases r e)
      as [(data' & -> & _)|(raised & -> & _)]; cbn [fst snd].
    + intros [Hin|Hin]%elem_of_app; [by destruct (Hnothing _ _ Hin)|].
      apply list_elem_of_singleton in Hin. injection Hin as -> ->.
      repeat split. by exists evs.
    + rewrite app_nil_r. intros Hin. by destruct (Hnothing _ _ Hin).
  - intros Hin. by destruct (Hnothing _ _ Hin).
Qed.

(** What [handle] sends has a payload exactly when [debug] is truthy. *)
Lemma handle_sends_diagnostic
    (r : Router.t T) (req : Req.t) (statusCode : Z) (data : option string) :
  EvSend statusCode data ∈ trace (Router.handle r req) →
  is_Some data ↔ truthy (Router.debug r) = true.
Proof.
  unfold Router.handle.
  destruct (URL_new (Req.url req)) as [reqURL|]; [|by intros ?%elem_of_nil].
  destruct (RadixRouter.lookup _ _) as [[route route_params]|];
    [|destruct (Req.method req); by intros ?%elem_of_nil].
  destruct (Req.method req) as [method|]; [|by intros ?%elem_of_nil].
  match goal with
  | |- context [Router.try_block ?m ?q] =>
      pose proof (try_block_sends_nothing m q) as Hnothing;
      destruct (Router.try_block m q) as [evs [e|v]]
  end; cbn [fst snd trace settled] in *.
  - destruct (catch_block_cases r e)
      as [(data' & -> & Hdata & _)|(raised & -> & _)]; cbn [fst snd].
    + intros [Hin|Hin]%elem_of_app; [by destruct (Hnothing _ _ Hin)|].
      apply list_elem_of_singleton in Hin. by injection Hin as -> ->.
    + rewrite app_nil_r. intros Hin. by destruct (Hnothing _ _ Hin).
  - intros Hin. by destruct (Hnothing _ _ Hin).
Qed.

(** X15. The [debug] option is fixed at construction: whatever is
    registered afterwards, a response that [handle] sends carries a body
    exactly when the router was constructed with a truthy [debug]; a
    router constructed without options discloses nothing. *)
Theorem debug_is_fixed_at_construction
    (config : option Config.t) (calls : list (option Options.t))
    (req : Req.t) (statusCode : Z) (data : option string) :
  EvSend statusCode data
  ∈ trace (Router.handle
             (registrations calls (Router.constructor (T:=T) config)) req) →
  (is_Some data ↔ truthy (from_option Config.debug VUndefined config) = true)
  ∧ (config = None → body_of data = "").
Proof.
  intros Hdata%handle_sends_diagnostic. rewrite debug_registrations in Hdata.
  cbn [Router.constructor Router.debug] in Hdata.
  split; [done|]. intros ->. cbn [from_option truthy] in Hdata.
  destruct data as [text|]; [|done].
  assert (Hfalse : false = true) by (apply Hdata; by eexists). done.
Qed.

(** X16. Dispatch is case-sensitive in the method while registration is
    not: on a router built by calls of [route], a request whose method is
    not spelled in upper case finds no binding on the route of its path and
    is answered with status 500. *)
Theorem handle_method_is_case_sensitive
    (config : option Config.t) (calls : list (option Options.t))
    (req : Req.t) (reqURL : URL) (route : RouteRef)
    (route_params : option Params) (method : string) :
  let r := registrations calls (Router.constructor (T:=T) config) in
  URL_new (Req.url req) = Some reqURL →
  RadixRouter.lookup (Router.radixRouter r) (pathname reqURL)
    = Some (route, route_params) →
  Req.method req = Some method →
  toUpperCase method ≠ method →
  (∃ data, trace (Router.handle r req) = [EvSend 500 data])
  ∧ settled (Router.handle r req) = Fulfills VUndefined.
Proof.
  intros r Hurl Hlookup Hmethod Hlower.
  apply (unbound_method_is_caught r req reqURL route route_params method);
    try done.
  unfold deref.
  destruct (Router.heap r !! route) as [obj|] eqn:Hobj; cbn [default];
    [|by apply lookup_empty].
  destruct (methods obj !! method) as [b|] eqn:Hb; [|done].
  destruct Hlower.
  eapply (upper_keys_registrations calls (Router.constructor config));
    [by intros ? ? ? ?|exact Hobj|by eexists].
Qed.

(** X17. Register, then dispatch: when a pattern that resolved to nothing
    is registered, and the radix router finds what was just inserted, a
    request for that path under the upper-case method is bound to the
    handler and pre-hook of the registration, and the handler is called
    unless it is no function or the pre-hook raises. *)
Theorem register_then_dispatch
    (r : Router.t T) (o : Options.t) (p m : string) (ps : option Params)
    (req : Req.t) (reqURL : URL) :
  valid_options o p m →
  RadixRouter.lookup (Router.radixRouter r) p = None →
  RadixRouter.lookup
    (RadixRouter.insert (Router.radixRouter r) (length (Router.heap r)) p) p
    = Some (length (Router.heap r), ps) →
  URL_new (Req.url req) = Some reqURL →
  pathname reqURL = p →
  Req.method req = Some (toUpperCase m) →
  let r' := state_of (Router.route (Some o) r) in
  let req' := handed_over req ps reqURL in
  bound_to r' req reqURL (length (Router.heap r)) ps (binding_of o)
  ∧ (is_function (Options.handler o) = true →
     before_passes (binding_of o) req' →
     EvCall (Options.handler o) req' ∈ trace (Router.handle r' req)).
Proof.
  intros Hvalid Hnone Hlaw Hurl Hpath Hmethod r' req'.
  assert (Hbound : bound_to r' req reqURL (length (Router.heap r)) ps
                     (binding_of o)).
  { subst r'. rewrite (route_new_run r o p m) by done.
    cbn [state_of]. repeat split; [done|by rewrite Hpath|].
    exists (toUpperCase m). split; [done|].
    cbn [Router.heap]. erewrite deref_Some by by apply list_lookup_middle.
    cbn [methods]. by rewrite lookup_insert_eq. }
  split; [done|]. intros Hfun Hpass.
  rewrite (handle_bound r' req reqURL _ ps (binding_of o)) by done.
  cbn zeta. fold req'.
  pose proof (try_block_handler_called (binding_of o) req' Hfun Hpass) as Hin.
  destruct (Router.try_block _ _) as [evs [e|v]]; cbn [fst snd trace] in *;
    [|done].
  apply elem_of_app. by left.
Qed.

End MoreDispatch.

(** ** Instances of the further properties *)

Lemma route_falsy_before_is_none_witness :
  truthy (Options.before zero_hook) = false
  ∧ Router.route (Some zero_hook) fresh
    = Router.route (Some (without_before zero_hook)) fresh.
Proof.
  split; [reflexivity|].
  apply (route_falsy_before_is_none fresh zero_hook). reflexivity.
Defined.

Lemma route_method_case_insensitive_witness :
  Router.route (Some post_users) router_users
  = Router.route (Some (with_method post_users "POST")) router_users.
Proof.
  apply (route_method_case_insensitive router_users post_users "post").
  reflexivity.
Defined.

Lemma route_keeps_what_is_registered_witness :
  let r' := state_of (Router.route (Some post_users) router_users) in
  Router.debug r' = Router.debug router_users
  ∧ length (Router.heap router_users) ≤ length (Router.heap r')
    ≤ S (length (Router.heap router_users))
  ∧ ∃ obj',
      Router.heap r' !! 0 = Some obj'
      ∧ path obj' = "/users/:id"
      ∧ ∀ k, methods obj' !! k
             = methods (deref (Router.heap router_users) 0) !! k
             ∨ ∃ o m b,
                 Some post_users = Some o ∧ Options.method o = Some m
                 ∧ k = toUpperCase m
                 ∧ methods obj' !! k = Some b
                 ∧ handler b = Options.handler o.
Proof.
  assert (Hobj : Router.heap router_users !! 0
                 = Some (deref (Router.heap router_users) 0))
    by reflexivity.
  exact (route_keeps_what_is_registered router_users (Some post_users) 0
           (deref (Router.heap router_users) 0) Hobj).
Defined.

Lemma registered_methods_are_upper_case_witness :
  methods (deref (Router.heap
                    (registrations [Some get_a_options]
                       (Router.constructor (T:=PathTree.t) None))) 0)
    !! "GET"
  = Some {| handler := respond "a" "ok"; before := VUndefined |}
  ∧ toUpperCase "GET" = "GET".
Proof.
  split; [reflexivity|].
  apply (registered_methods_are_upper_case (T:=PathTree.t) None
           [Some get_a_options] 0
           (deref (Router.heap
                     (registrations [Some get_a_options]
                        (Router.constructor (T:=PathTree.t) None))) 0)
           "GET").
  - reflexivity.
  - eexists. reflexivity.
Defined.

Lemma route_again_changes_nothing_witness :
  let r := state_of (Router.route (Some post_users) router_users) in
  Router.route (Some post_users) r = Ok r tt.
Proof.
  intros r.
  assert (Hvalid : valid_options post_users "/users/:id" "post").
  { repeat split; try reflexivity; discriminate. }
  assert (Hlookup : RadixRouter.lookup (Router.radixRouter r) "/users/:id"
                    = Some (0, Some [("id", ":id")])) by reflexivity.
  assert (Hobj : Router.heap r !! 0 = Some (deref (Router.heap r) 0))
    by reflexivity.
  assert (Hbound : methods (deref (Router.heap r) 0) !! toUpperCase "post"
                   = Some (binding_of post_users)) by reflexivity.
  exact (route_again_changes_nothing r post_users "/users/:id" "post" 0
           (Some [("id", ":id")]) (deref (Router.heap r) 0)
           Hvalid Hlookup Hobj Hbound).
Defined.

Lemma route_commutes_witness :
  registrations [Some post_users; Some put_users] router_users
  = registrations [Some put_users; Some post_users] router_users.
Proof.
  assert (Hvalid1 : valid_options post_users "/users/:id" "post").
  { repeat split; try reflexivity; discriminate. }
  assert (Hvalid2 : valid_options put_users "/users/:id" "put").
  { repeat split; try reflexivity; discriminate. }
  assert (Hlookup : RadixRouter.lookup (Router.radixRouter router_users)
                      "/users/:id" = Some (0, Some [("id", ":id")]))
    by reflexivity.
  assert (Hobj : Router.heap router_users !! 0
                 = Some (deref (Router.heap router_users) 0))
    by reflexivity.
  apply (route_commutes router_users post_users put_users
           "/users/:id" "post" "/users/:id" "put" 0 0
           (Some [("id", ":id")]) (Some [("id", ":id")])
           (deref (Router.heap router_users) 0)
           (deref (Router.heap router_users) 0)
           Hvalid1 Hvalid2 Hlookup Hlookup Hobj Hobj).
  right. discriminate.
Defined.

Lemma verbs_bind_their_method_witness :
  ∃ r',
    Router.patch (Some "/a") (respond "check" "checked") (respond "a" "ok") fresh
    = Ok r' tt
    ∧ methods (deref (Router.heap r') 0) !! "PATCH"
      = Some {| handler := respond "a" "ok";
                before := respond "check" "checked" |}.
Proof.
  assert (Hverb : ("PATCH", Router.patch (T:=PathTree.t)) ∈ verbs).
  { unfold verbs. do 6 apply list_elem_of_further. apply list_elem_of_here. }
  assert (Hp : "/a" ≠ "") by discriminate.
  assert (Halloc : ∀ ref ps,
            RadixRouter.lookup (Router.radixRouter fresh) "/a" = Some (ref, ps) →
            ref < length (Router.heap fresh)).
  { intros ref ps Hlookup. discriminate Hlookup. }
  exact (verbs_bind_their_method fresh "PATCH" Router.patch "/a"
           (respond "check" "checked") (respond "a" "ok")
           Hverb Hp eq_refl (λ _, eq_refl) Halloc).
Defined.

Lemma handle_returns_handler_value_witness :
  settled (Router.handle (router_with VUndefined (resolving "a" "ok") VUndefined)
             get_a)
  = Fulfills (VStr "ok").
Proof.
  set (r := router_with VUndefined (resolving "a" "ok") VUndefined).
  set (methodObj := {| handler := resolving "a" "ok"; before := VUndefined |}).
  assert (Hbound : bound_to r get_a (plain "/a") 0 None methodObj).
  { repeat split; try reflexivity. exists "GET". split; reflexivity. }
  assert (Hpass : before_passes methodObj (handed_over get_a None (plain "/a")))
    by (left; reflexivity).
  exact (proj1 (handle_returns_handler_value r get_a (plain "/a") 0 None
                  methodObj "a"
                  (λ _, ReturnsPromise (Fulfills (VStr "ok"))) (VStr "ok")
                  Hbound eq_refl Hpass (or_intror eq_refl))).
Defined.



Lemma handle_handler_not_a_function_witness :
  settled (Router.handle (router_with VUndefined (VStr "handler") VUndefined)
             get_a)
  = Fulfills VUndefined
  ∧ ∃ evs data,
      trace (Router.handle (router_with VUndefined (VStr "handler") VUndefined)
               get_a)
      = evs ++ [EvSend 500 data].
Proof.
  set (r := router_with VUndefined (VStr "handler") VUndefined).
  set (methodObj := {| handler := VStr "handler"; before := VUndefined |}).
  assert (Hbound : bound_to r get_a (plain "/a") 0 None methodObj).
  { repeat split; try reflexivity. exists "GET". split; reflexivity. }
  assert (Hpass : before_passes methodObj (handed_over get_a None (plain "/a")))
    by (left; reflexivity).
  destruct (handle_handler_not_a_function r get_a (plain "/a") 0 None methodObj
              Hbound eq_refl Hpass) as [(evs & data & Htrace & _) Hsettled].
  split; [exact Hsettled|]. exists evs, data. exact Htrace.
Defined.

Lemma handle_hands_over_request_witness :
  Req.params (request (Router.handle router_a get_a_with_params))
  = Some [("left", "over")]
  ∧ Req.searchParams (request (Router.handle router_a get_a_with_params))
    = Some [].
Proof.
  assert (Hurl : URL_new (Req.url get_a_with_params) = Some (plain "/a"))
    by reflexivity.
  assert (Hlookup : RadixRouter.lookup (Router.radixRouter router_a)
                      (pathname (plain "/a")) = Some (0, None))
    by reflexivity.
  destruct (handle_hands_over_request router_a get_a_with_params (plain "/a")
              0 None "GET" Hurl Hlookup eq_refl)
    as (_ & _ & Hsearch & Hparams).
  split; [exact (Hparams eq_refl)|exact Hsearch].
Defined.


Lemma handle_sends_only_500_witness :
  settled (Router.handle router_a (incoming (Some "POST") "/a"))
  = Fulfills VUndefined.
Proof.
  assert (Hsent : EvSend 500 None
                  ∈ trace (Router.handle router_a (incoming (Some "POST") "/a"))).
  { apply list_elem_of_here. }
  exact (proj1 (proj2 (handle_sends_only_500 router_a
                         (incoming (Some "POST") "/a") 500 None Hsent))).
Defined.

Lemma debug_is_fixed_at_construction_witness :
  is_Some (None : option string)
  ↔ truthy (from_option Config.debug VUndefined None) = true.
Proof.
  assert (Hsent : EvSend 500 None
                  ∈ trace (Router.handle
                             (registrations [Some get_a_options]
                                (Router.constructor (T:=PathTree.t) None))
                             (incoming (Some "POST") "/a"))).
  { apply list_elem_of_here. }
  exact (proj1 (debug_is_fixed_at_construction None [Some get_a_options]
                  (incoming (Some "POST") "/a") 500 None Hsent)).
Defined.

Lemma handle_method_is_case_sensitive_witness :
  let r := registrations [Some get_a_options]
             (Router.constructor (T:=PathTree.t) None) in
  (∃ data, trace (Router.handle r (incoming (Some "get") "/a"))
           = [EvSend 500 data])
  ∧ settled (Router.handle r (incoming (Some "get") "/a"))
    = Fulfills VUndefined.
Proof.
  assert (Hlower : toUpperCase "get" ≠ "get") by discriminate.
  exact (handle_method_is_case_sensitive None [Some get_a_options]
           (incoming (Some "get") "/a") (plain "/a") 0 None "get"
           eq_refl eq_refl eq_refl Hlower).
Defined.

Lemma register_then_dispatch_witness :
  EvCall (respond "a" "ok") (dispatched "GET" "/a" None)
  ∈ trace (Router.handle (state_of (Router.route (Some get_a_options) fresh))
             get_a).
Proof.
  assert (Hvalid : valid_options get_a_options "/a" "get").
  { repeat split; try reflexivity; discriminate. }
  assert (Hnone : RadixRouter.lookup (Router.radixRouter fresh) "/a" = None)
    by reflexivity.
  assert (Hlaw : RadixRouter.lookup
                   (RadixRouter.insert (Router.radixRouter fresh)
                      (length (Router.heap fresh)) "/a") "/a"
                 = Some (length (Router.heap fresh), None))
    by reflexivity.
  assert (Hurl : URL_new (Req.url get_a) = Some (plain "/a")) by reflexivity.
  destruct (register_then_dispatch fresh get_a_options "/a" "get" None
              get_a (plain "/a") Hvalid Hnone Hlaw Hurl eq_refl eq_refl)
    as [_ Hcalled].
  apply Hcalled; [reflexivity|]. left. reflexivity.
Defined.

(** * Registering a pattern a second time *)

(** ** The path tree after an insertion *)

Lemma static_keys_leaf : static_keys PathTree.leaf.
Proof. by cbn. Qed.

(** A static child is found under a literal only. *)
Lemma static_child_kind (segment : string)
    (statics : list (string * PathTree.TreeNode))
    (param : option (string * PathTree.TreeNode))
    (wildcard : option PathTree.TreeNode) (route : option RouteRef)
    (child : PathTree.TreeNode) :
  static_keys (PathTree.Node statics param wildcard route) →
  PathTree.static_child segment statics = Some child →
  PathTree.kind segment = PathTree.Static segment ∧ static_keys child.
Proof.
  cbn [static_keys]. intros (Hstatics & _).
  induction statics as [|[key c] rest IH]; [done|].
  destruct Hstatics as (Hkey & Hc & Hrest). cbn [PathTree.static_child].
  destruct (String.eqb key segment) eqn:Heq; [|by apply IH].
  apply String.eqb_eq in Heq as <-. by intros [= <-].
Qed.

Lemma static_child_with_static (literal : string)
    (f : PathTree.TreeNode → PathTree.TreeNode)
    (statics : list (string * PathTree.TreeNode)) :
  PathTree.static_child literal (PathTree.with_static literal f statics)
  = Some (f (default PathTree.leaf (PathTree.static_child literal statics))).
Proof.
  induction statics as [|[key c] rest IH];
    cbn [PathTree.with_static PathTree.static_child].
  - by rewrite String.eqb_refl.
  - destruct (String.eqb key literal) eqn:Heq;
      cbn [PathTree.static_child]; by rewrite Heq.
Qed.

Lemma static_keys_with_static (literal : string)
    (f : PathTree.TreeNode → PathTree.TreeNode)
    (statics : list (string * PathTree.TreeNode))
    (param : option (string * PathTree.TreeNode))
    (wildcard : option PathTree.TreeNode) (route : option RouteRef) :
  PathTree.kind literal = PathTree.Static literal →
  (∀ node, static_keys node → static_keys (f node)) →
  static_keys (PathTree.Node statics param wildcard route) →
  static_keys
    (PathTree.Node (PathTree.with_static literal f statics) param wildcard route).
Proof.
  intros Hkind Hf. cbn [static_keys]. intros (Hstatics & Hrest).
  split; [|done]. clear Hrest.
  induction statics as [|[key c] rest IH]; cbn [PathTree.with_static].
  - repeat split; [done|]. apply Hf, static_keys_leaf.
  - destruct Hstatics as (Hkey & Hc & Hrest).
    destruct (String.eqb key literal); repeat split; auto.
    by apply IH.
Qed.

(** [insert] keeps the static children keyed by literals. *)
Lemma static_keys_insert_at (segs : list string) (route : RouteRef)
    (node : PathTree.TreeNode) :
  static_keys node → static_keys (PathTree.insert_at segs route node).
Proof.
  revert node. induction segs as [|segment rest IH];
    intros [statics param wildcard existing] Hnode;
    pose proof Hnode as (Hstatics & Hparam & Hwildcard);
    cbn [PathTree.insert_at]; [done|].
  destruct (PathTree.kind segment) as [literal|name|] eqn:Hkind.
  - pose proof (kind_static _ _ Hkind) as ->.
    by apply static_keys_with_static.
  - repeat split; try done. apply IH.
    destruct param as [[old child]|]; [done|apply static_keys_leaf].
  - repeat split; try done. apply IH.
    destruct wildcard as [child|]; [done|apply static_keys_leaf].
Qed.

(** Which Route a lookup ends on does not depend on the parameters
    gathered on the way. *)
Lemma found_route_params (segs : list string) (node : PathTree.TreeNode)
    (params params' : Params) :
  found_route (PathTree.find segs node params)
  = found_route (PathTree.find segs node params').
Proof.
  revert node params params'. induction segs as [|segment rest IH];
    intros [statics param wildcard existing] params params';
    cbn [PathTree.find].
  - by destruct existing.
  - destruct (PathTree.static_child segment statics) as [child|]; [by apply IH|].
    destruct param as [[name child]|]; [by apply IH|].
    destruct wildcard as [child|]; [|done].
    by destruct (PathTree.route_of child).
Qed.

(** After the insertion of a well-formed pattern that resolved to nothing,
    the pattern resolves to the Route inserted; or, only if it ends in a
    wildcard, it still resolves to nothing. *)
Lemma find_after_insert (segs : list string) (route : RouteRef)
    (node : PathTree.TreeNode) (params : Params) :
  static_keys node →
  wildcard_last segs = true →
  found_route (PathTree.find segs node params) = None →
  found_route (PathTree.find segs (PathTree.insert_at segs route node) params)
  = Some route
  ∨ (wildcard_free segs = false
     ∧ found_route
         (PathTree.find segs (PathTree.insert_at segs route node) params)
       = None).
Proof.
  revert node params. induction segs as [|segment rest IH];
    intros [statics param wildcard existing] params Hkeys Hlast Hnone;
    pose proof Hkeys as (Hstatics & Hparam & Hwildcard).
  - cbn in *. destruct existing; [done|by left].
  - cbn [wildcard_last wildcard_free] in *.
    cbn [PathTree.insert_at]. cbn [PathTree.find] in Hnone.
    destruct (PathTree.kind segment) as [literal|name|] eqn:Hkind.
    + pose proof (kind_static _ _ Hkind) as ->.
      cbn [PathTree.find]. rewrite static_child_with_static.
      destruct (PathTree.static_child segment statics) as [child|] eqn:Hchild;
        cbn [default].
      * apply IH; [|done..].
        by eapply (static_child_kind segment statics param wildcard existing).
      * apply IH; [apply static_keys_leaf|done|]. by rewrite find_leaf.
    + destruct (PathTree.static_child segment statics) as [child|] eqn:Hchild.
      { destruct (static_child_kind segment statics param wildcard existing
                    child Hkeys Hchild) as [Hstatic _]. congruence. }
      cbn [PathTree.find]. rewrite Hchild.
      destruct param as [[old child]|]; cbn [from_option snd].
      * apply IH; [done..|].
        by rewrite (found_route_params rest child _
                      (PathTree.params_set old segment params)).
      * apply IH; [apply static_keys_leaf|done|]. by rewrite find_leaf.
    + destruct rest; [|done].
      destruct (PathTree.static_child segment statics) as [child|] eqn:Hchild.
      { destruct (static_child_kind segment statics param wildcard existing
                    child Hkeys Hchild) as [Hstatic _]. congruence. }
      cbn [PathTree.find]. rewrite Hchild.
      destruct param as [[old child]|]; [by right|].
      left. destruct wildcard as [[st pa wi [r|]]|]; cbn in *; done.
Qed.

Lemma lookup_found_route (tree : PathTree.t) (p : string) :
  found_route
    (PathTree.find (PathTree.segments (PathTree.strict tree) p)
       (PathTree.root tree) [])
  = fst <$> PathTree.lookup tree p.
Proof. unfold PathTree.lookup. by destruct (PathTree.find _ _ _). Qed.

(** ** The router built by registrations *)

Lemma static_keys_route (r : Router.t PathTree.t) (options : option Options.t) :
  static_keys (PathTree.root (Router.radixRouter r)) →
  static_keys
    (PathTree.root (Router.radixRouter (state_of (Router.route options r)))).
Proof.
  intros Hkeys.
  destruct (route_state_cases r options)
    as [-> | (o & p & m & b & -> & Hm & Hb & ->)]; [done|].
  unfold write, probe. cbn [Router.radixRouter].
  destruct (RadixRouter.lookup _ _) as [[ref ps]|]; cbn; [done|].
  by apply static_keys_insert_at.
Qed.

Lemma registrations_invariants (config : option Config.t)
    (calls : list (option Options.t)) :
  let r := registrations calls (Router.constructor (T:=PathTree.t) config) in
  allocated r ∧ static_keys (PathTree.root (Router.radixRouter r)).
Proof.
  cbn zeta.
  assert (Hgen : ∀ r : Router.t PathTree.t,
            allocated r ∧ static_keys (PathTree.root (Router.radixRouter r)) →
            allocated (registrations calls r)
            ∧ static_keys (PathTree.root (Router.radixRouter
                                            (registrations calls r)))).
  { induction calls as [|options rest IH]; intros r [Halloc Hkeys]; [done|].
    cbn [registrations]. apply IH. split.
    - by apply allocated_route.
    - by apply static_keys_route. }
  apply Hgen. split; [apply allocated_constructor|apply static_keys_leaf].
Qed.

(** X18. On a router built by calls of [route], take a
    well-formed pattern (a wildcard only as last segment) and register it
    twice.  If the pattern resolves to a Route after its first registration
    -- which it always does when it has no wildcard segment -- the second
    registration reuses that Route: it creates no route object and leaves
    the tree as it is, and the one Route binds the method of the second
    registration to its handler and pre-hook (the last write wins) and
    still binds the method of the first, if it is another, as the first
    registration bound it. *)
Theorem route_second_time_reuses
    (config : option Config.t) (calls : list (option Options.t))
    (o1 o2 : Options.t) (p m1 m2 : string) :
  let r := registrations calls (Router.constructor (T:=PathTree.t) config) in
  let segs := PathTree.segments (PathTree.strict (Router.radixRouter r)) p in
  valid_options o1 p m1 →
  valid_options o2 p m2 →
  wildcard_last segs = true →
  ∃ r1,
    Router.route (Some o1) r = Ok r1 tt
    ∧ (wildcard_free segs = true →
       is_Some (RadixRouter.lookup (Router.radixRouter r1) p))
    ∧ (is_Some (RadixRouter.lookup (Router.radixRouter r1) p) →
       ∃ r2 ref ps obj,
         Router.route (Some o2) r1 = Ok r2 tt
         ∧ Router.radixRouter r2 = Router.radixRouter r1
         ∧ length (Router.heap r2) = length (Router.heap r1)
         ∧ RadixRouter.lookup (Router.radixRouter r2) p = Some (ref, ps)
         ∧ Router.heap r2 !! ref = Some obj
         ∧ methods obj !! toUpperCase m2 = Some (binding_of o2)
         ∧ (toUpperCase m1 ≠ toUpperCase m2 →
            methods obj !! toUpperCase m1 = Some (binding_of o1))).
Proof.
  intros r segs Hvalid1 Hvalid2 Hlast.
  destruct (registrations_invariants config calls) as [Halloc Hkeys].
  fold r in Halloc, Hkeys.
  assert (Hsecond : ∀ (r1 : Router.t PathTree.t) ref ps obj1,
            RadixRouter.lookup (Router.radixRouter r1) p = Some (ref, ps) →
            Router.heap r1 !! ref = Some obj1 →
            methods obj1 !! toUpperCase m1 = Some (binding_of o1) →
            ∃ r2 ref ps obj,
              Router.route (Some o2) r1 = Ok r2 tt
              ∧ Router.radixRouter r2 = Router.radixRouter r1
              ∧ length (Router.heap r2) = length (Router.heap r1)
              ∧ RadixRouter.lookup (Router.radixRouter r2) p = Some (ref, ps)
              ∧ Router.heap r2 !! ref = Some obj
              ∧ methods obj !! toUpperCase m2 = Some (binding_of o2)
              ∧ (toUpperCase m1 ≠ toUpperCase m2 →
                 methods obj !! toUpperCase m1 = Some (binding_of o1))).
  { intros r1 ref ps obj1 Hlookup Hobj1 Hfirst.
    assert (Hlt : ref < length (Router.heap r1)) by by eapply lookup_lt_Some.
    eexists _, ref, ps, _. split; [by eapply route_found_run|].
    cbn [Router.radixRouter Router.heap].
    rewrite length_insert, list_lookup_insert_eq by done.
    repeat split; [done|..]; cbn [methods].
    - by rewrite lookup_insert_eq.
    - intros Hne. by rewrite lookup_insert_ne. }
  destruct (RadixRouter.lookup (Router.radixRouter r) p) as [[ref ps]|]
    eqn:Hlookup.
  - pose proof (allocated_lookup r p ref ps Halloc Hlookup) as Hlt.
    destruct (lookup_lt_is_Some_2 _ _ Hlt) as [obj Hobj].
    eexists. split; [by eapply route_found_run|].
    match goal with
    | |- context [Router.route (Some o2) ?x] => set (r1 := x)
    end.
    assert (Hlookup1 :
              RadixRouter.lookup (Router.radixRouter r1) p = Some (ref, ps))
      by done.
    split; [by rewrite Hlookup1|].
    intros _. eapply (Hsecond r1 ref ps); [done|..];
      subst r1; cbn [Router.heap].
    + by apply list_lookup_insert_eq.
    + cbn [methods]. by rewrite lookup_insert_eq.
  - eexists. split; [by eapply route_new_run|].
    match goal with
    | |- context [Router.route (Some o2) ?x] => set (r1 := x)
    end.
    assert (Hnone : found_route (PathTree.find segs
                      (PathTree.root (Router.radixRouter r)) []) = None).
    { subst segs. rewrite lookup_found_route.
      change (PathTree.lookup (Router.radixRouter r) p)
        with (RadixRouter.lookup (Router.radixRouter r) p).
      by rewrite Hlookup. }
    pose proof (find_after_insert segs (length (Router.heap r))
                  (PathTree.root (Router.radixRouter r)) []
                  Hkeys Hlast Hnone) as Hafter.
    assert (Hlookup1 :
              fst <$> RadixRouter.lookup (Router.radixRouter r1) p
              = found_route
                  (PathTree.find segs
                     (PathTree.insert_at segs (length (Router.heap r))
                        (PathTree.root (Router.radixRouter r))) [])).
    { subst segs. by rewrite <-lookup_found_route. }
    split.
    + intros Hfree. destruct Hafter as [Hfound | [Hnot _]]; [|congruence].
      rewrite Hfound in Hlookup1.
      destruct (RadixRouter.lookup (Router.radixRouter r1) p) as [found|];
        [by eexists|done].
    + intros [[ref ps] Hsome].
      destruct Hafter as [Hfound | [_ Hstill]].
      * rewrite Hfound, Hsome in Hlookup1. cbn in Hlookup1.
        injection Hlookup1 as ->.
        eapply (Hsecond r1 (length (Router.heap r)) ps); [done|..];
          subst r1; cbn [Router.heap].
        -- by apply list_lookup_middle.
        -- cbn [methods]. by rewrite lookup_insert_eq.
      * rewrite Hstill, Hsome in Hlookup1. done.
Qed.


Lemma route_second_time_reuses_witness :
  ∃ r1,
    Router.route
      (Some {| Options.path := Some "/users/:id";
               Options.method := Some "get";
               Options.handler := respond "getUser" "user";
               Options.before := VUndefined |})
      router_f_star_again
    = Ok r1 tt
    ∧ ∃ r2 ref ps obj,
        Router.route (Some post_users) r1 = Ok r2 tt
        ∧ Router.radixRouter r2 = Router.radixRouter r1
        ∧ length (Router.heap r2) = length (Router.heap r1)
        ∧ RadixRouter.lookup (Router.radixRouter r2) "/users/:id"
          = Some (ref, ps)
        ∧ Router.heap r2 !! ref = Some obj
        ∧ methods obj !! "POST" = Some (binding_of post_users)
        ∧ is_Some (methods obj !! "GET").
Proof.
  set (o1 := {| Options.path := Some "/users/:id";
                Options.method := Some "get";
                Options.handler := respond "getUser" "user";
                Options.before := VUndefined |}).
  assert (Hvalid1 : valid_options o1 "/users/:id" "get").
  { repeat split; try reflexivity; discriminate. }
  assert (Hvalid2 : valid_options post_users "/users/:id" "post").
  { repeat split; try reflexivity; discriminate. }
  destruct (route_second_time_reuses None
              [Some {| Options.path := Some "/f/:id/x";
                       Options.method := Some "PUT";
                       Options.handler := respond "x" "x";
                       Options.before := VUndefined |};
               Some {| Options.path := Some "/f/*";
                       Options.method := Some "GET";
                       Options.handler := respond "list" "list";
                       Options.before := VUndefined |};
               Some {| Options.path := Some "/f/*";
                       Options.method := Some "POST";
                       Options.handler := respond "add" "add";
                       Options.before := VUndefined |}]
              o1 post_users "/users/:id" "get" "post"
              Hvalid1 Hvalid2 eq_refl)
    as (r1 & Hfirst & Hresolves & Hreuse).
  exists r1. split; [exact Hfirst|].
  destruct (Hreuse (Hresolves eq_refl))
    as (r2 & ref & ps & obj & Hrun & Htree & Hlen & Hlookup & Hobj & Hpost & Hget).
  exists r2, ref, ps, obj. repeat split; try assumption.
  eexists. apply Hget. discriminate.
Defined.
